(** * Temple Finder: proximity search of [GET /api/temples]

    A shallow embedding of the request handler [app.get("/api/temples")] and
    of its helper [getDistance] (server.ts), together with the parts of the
    platform they run on:
    - JavaScript Numbers are IEEE 754 binary64 values, here Rocq's primitive
      floats, whose operations are specified bit for bit by [SpecFloat];
    - [Math.sin], [Math.cos] and [Math.atan2] are a parameter ([MathLib]),
      constrained where needed by what ECMA-262 fixes; [RefMath] is one
      such library, on which the handler can be run;
    - [parseFloat], [Array.prototype.filter], [Array.prototype.sort] and the
      [SELECT] statement that the handler sends to SQLite are functions;
    - the handler takes the database and returns it with the response.

    The later parts cover the rest of the server and the client as far as
    they are plain code: the routes [/api/auth/register] and
    [/api/auth/login] with [bcryptjs] and [jsonwebtoken] as parameters, the
    seeding of the catalog (db.ts), and the type filter and the distance
    line of the client (App.tsx). *)

From Stdlib Require Import ZArith List String Ascii Bool Lia.
From Stdlib Require Import Floats.
From Stdlib Require Import Sorting.Sorted Sorting.Permutation.
From Stdlib Require Import RelationClasses.
Import ListNotations.

Local Open Scope float_scope.

(** Decimal literals denote the nearest binary64 value, as in JavaScript. *)
#[local] Set Warnings "-inexact-float".

(** ** JavaScript numbers *)

(** A JavaScript Number is an IEEE 754 binary64 value; Rocq's primitive
    [float] is the same format with the same round-to-nearest-even
    operations, and a single NaN. *)
Definition number := float.

(** [Math.PI], the double nearest to pi. *)
Definition Math_PI : number := 0x1.921fb54442d18p+1.

(** [Math.sqrt] is the correctly rounded square root. *)
Definition Math_sqrt (x : number) : number := PrimFloat.sqrt x.

(** The relational operators [<=] and [>] on Numbers: false as soon as one
    side is NaN. *)
Definition js_le (x y : number) : bool := x <=? y.
Definition js_gt (x y : number) : bool := y <? x.

(** [Math.sin], [Math.cos] and [Math.atan2] are implementation-approximated:
    ECMA-262 fixes their value at a few arguments only.  The embedding takes
    them as a parameter. *)
Record MathLib := {
  Math_sin : number -> number;
  Math_cos : number -> number;
  Math_atan2 : number -> number -> number
}.

(** ** [getDistance] *)

Section Distance.
Variable M : MathLib.

Definition getDistance (lat1 lon1 lat2 lon2 : number) : number :=
  let R := 6371 in
  let dLat := (lat2 - lat1) * Math_PI / 180 in
  let dLon := (lon2 - lon1) * Math_PI / 180 in
  let a := Math_sin M (dLat / 2) * Math_sin M (dLat / 2) +
           Math_cos M (lat1 * Math_PI / 180) * Math_cos M (lat2 * Math_PI / 180) *
           Math_sin M (dLon / 2) * Math_sin M (dLon / 2) in
  let c := 2 * Math_atan2 M (Math_sqrt a) (Math_sqrt (1 - a)) in
  R * c.
End Distance.

(** ** [parseFloat] *)

(** Query values are modelled as [string]s, one character per code unit
    (code units below 256). *)

Local Open Scope char_scope.

(** [StrWhiteSpaceChar], restricted to the code units a [string] can hold:
    TAB, LF, VT, FF, CR, SP and NBSP. *)
Definition is_StrWhiteSpaceChar (c : ascii) : bool :=
  let n := N_of_ascii c in
  ((9 <=? n) && (n <=? 13))%N || (n =? 32)%N || (n =? 160)%N.

Fixpoint trim_start (l : list ascii) : list ascii :=
  match l with
  | c :: r => if is_StrWhiteSpaceChar c then trim_start r else l
  | [] => []
  end.

Definition digit_value (c : ascii) : option Z :=
  let n := N_of_ascii c in
  if ((48 <=? n) && (n <=? 57))%N then Some (Z.of_N n - 48)%Z else None.

(** The longest run of [DecimalDigit]s at the head of [l], as digit values,
    and what follows it. *)
Fixpoint take_digits (l : list ascii) : list Z * list ascii :=
  match l with
  | c :: r =>
      match digit_value c with
      | Some d => let '(ds, rest) := take_digits r in (d :: ds, rest)
      | None => ([], l)
      end
  | [] => ([], [])
  end.

Definition digits_value (ds : list Z) : Z :=
  fold_left (fun acc d => 10 * acc + d)%Z ds 0%Z.

Definition take_sign (l : list ascii) : bool * list ascii :=
  match l with
  | "+" :: r => (false, r)
  | "-" :: r => (true, r)
  | _ => (false, l)
  end.

Fixpoint starts_with (p l : list ascii) : bool :=
  match p, l with
  | [], _ => true
  | c :: p', d :: l' => Ascii.eqb c d && starts_with p' l'
  | _ :: _, [] => false
  end.

(** The value of an [ExponentPart] at the head of [l], 0 when there is none
    (an [e] that no digit follows belongs to no literal). *)
Definition exponent_part (l : list ascii) : Z :=
  match l with
  | c :: r =>
      if Ascii.eqb c "e" || Ascii.eqb c "E" then
        let '(neg, r') := take_sign r in
        match take_digits r' with
        | ([], _) => 0%Z
        | (ds, _) => if neg then (- digits_value ds)%Z else digits_value ds
        end
      else 0%Z
  | [] => 0%Z
  end.

(** The binary64 value nearest to [m * 10^e10] (ties to even), for [m >= 0]
    written with [len] decimal digits.  Beyond [10^400] the value is
    infinite and below [10^-400] it is zero, whatever the digits. *)
Definition decimal_to_SF (neg : bool) (m : Z) (len : Z) (e10 : Z) : spec_float :=
  match m with
  | Zpos p =>
      if (0 <=? e10)%Z then
        if (400 <? e10)%Z then S754_infinity neg
        else binary_normalize prec emax (if neg then - (m * 10 ^ e10) else m * 10 ^ e10)%Z 0 neg
      else
        if (len + e10 <? -400)%Z then S754_zero neg
        else
          let '(q, e', l) := SFdiv_core_binary prec emax m 0 (10 ^ (- e10))%Z 0 in
          binary_round_aux prec emax neg q e' l
  | _ => S754_zero neg
  end.

(** [parseFloat(string)]: skip leading white space, take the longest prefix
    that is a [StrDecimalLiteral], NaN when there is none. *)
Definition parseFloat (s : string) : number :=
  let '(neg, l) := take_sign (trim_start (list_ascii_of_string s)) in
  if starts_with (list_ascii_of_string "Infinity") l then
    if neg then neg_infinity else infinity
  else
    let '(ip, r1) := take_digits l in
    let '(fp, r2) := match r1 with
                     | "." :: r => take_digits r
                     | _ => ([], r1)
                     end in
    match ip ++ fp with
    | [] => nan
    | ds =>
        SF2Prim (decimal_to_SF neg (digits_value ds) (Z.of_nat (List.length ds))
                   (exponent_part r2 - Z.of_nat (List.length fp)))
    end.

Local Close Scope char_scope.

(** ** Arrays: [filter] and [sort] *)

Section Arrays.
Context {A : Type}.

(** [Array.prototype.filter] with a callback that also assigns to a
    property of its argument: the callback yields the element as it is
    after the call and its verdict.  The elements the callback rejects are
    dropped together with what was assigned to them. *)
Fixpoint Array_filter (callbackfn : A -> A * bool) (arr : list A) : list A :=
  match arr with
  | [] => []
  | t :: rest =>
      let '(t', keep) := callbackfn t in
      if keep then t' :: Array_filter callbackfn rest
      else Array_filter callbackfn rest
  end.

(** [Array.prototype.sort(comparefn)].  ECMA-262 asks for a stable sort:
    [x] goes after [y] when [comparefn(x, y) > 0], before it when
    [comparefn(x, y) < 0], and a result that is [0] or NaN leaves the two in
    the order they came in.  Insertion from the right is such a sort. *)
Variable comparefn : A -> A -> number.

Fixpoint sort_insert (x : A) (sorted : list A) : list A :=
  match sorted with
  | [] => [x]
  | y :: rest =>
      if js_gt (comparefn x y) 0 then y :: sort_insert x rest
      else x :: sorted
  end.

Definition Array_sort (arr : list A) : list A :=
  fold_right sort_insert [] arr.
End Arrays.

(** ** The [temples] table and the handler's [SELECT] *)

(** A row of [temples] (db.ts).  [name] and [type] are [NOT NULL]; the other
    columns may hold NULL ([None]).  [lat] and [lng] are [REAL]: a Number or
    NULL, which [all()] hands over as [null]. *)
Module Temple.
Record row := {
  id : Z;
  name : string;
  type : string;
  address : option string;
  city : option string;
  lat : option number;
  lng : option number;
  opening_hours : option string;
  ritual_timings : option string;
  festivals : option string;
  accessibility : option string;
  contact : option string;
  description : option string;
  image_url : option string
}.
End Temple.

(** The database as far as the handler reads it: the rows of [temples] in
    rowid order, which is the order a [SELECT] without [ORDER BY] scans. *)
Record database := { temples_table : list Temple.row }.

Local Open Scope N_scope.

(** SQLite reads a text as UTF-8, one character at a time up to the end of
    the text or its first NUL ([sqlite3Utf8Read]): a byte below [0xC0]
    stands for itself; a byte from [0xC0] on opens a character that takes
    in the bytes [10xxxxxx] that follow, six bits each, in 32-bit
    arithmetic. *)
Definition sqlite3Utf8Trans1 (lead : N) : N :=
  if lead <? 0xE0 then N.land lead 0x1F
  else if lead <? 0xF0 then N.land lead 0x0F
  else if lead <? 0xF8 then N.land lead 0x07
  else if lead <? 0xFC then N.land lead 0x03
  else if lead <? 0xFE then N.land lead 0x01
  else 0.

(** What such a character is read as when its bytes are no character:
    [U+FFFD] *)
Definition utf8_repair (c : N) : N :=
  if (c <? 0x80) || (N.land c 0xFFFFF800 =? 0xD800) || (N.land c 0xFFFFFFFE =? 0xFFFE)
  then 0xFFFD else c.

(** The characters of a text; [pending] is the character that the bytes
    read so far have opened. *)
Fixpoint utf8_characters (pending : option N) (z : list ascii) : list N :=
  match z with
  | [] =>
      match pending with
      | Some c => [utf8_repair c]
      | None => []
      end
  | b :: z' =>
      let n := N_of_ascii b in
      let next :=
        if n =? 0 then []
        else if n <? 0xC0 then n :: utf8_characters None z'
        else utf8_characters (Some (sqlite3Utf8Trans1 n)) z' in
      match pending with
      | Some c =>
          if N.land n 0xC0 =? 0x80
          then utf8_characters (Some ((c * 64 + N.land n 0x3F) mod 2 ^ 32)) z'
          else utf8_repair c :: next
      | None => next
      end
  end.

Definition sqlite3Tolower (c : N) : N :=
  if (65 <=? c) && (c <=? 90) then c + 32 else c.

(** A character of a pattern that is not [%] against a character of the
    text: the same character, or the same letter of ASCII in either case,
    or [_] in the pattern. *)
Definition like_char (p c : N) : bool :=
  (p =? c) ||
  ((p <? 0x80) && (c <? 0x80) && (sqlite3Tolower p =? sqlite3Tolower c)) ||
  (p =? 95).

(** [patternCompare] without [ESCAPE]: [%] (37) matches any run of
    characters, [_] (95) any one character. *)
Fixpoint patternCompare (pattern text : list N) {struct pattern} : bool :=
  match pattern with
  | [] => match text with [] => true | _ :: _ => false end
  | p :: pattern' =>
      if p =? 37 then
        (fix any (t : list N) : bool :=
           patternCompare pattern' t ||
           match t with [] => false | _ :: t' => any t' end) text
      else
        match text with
        | [] => false
        | c :: t => like_char p c && patternCompare pattern' t
        end
  end.

Local Close Scope N_scope.

Definition sql_like (pattern text : list ascii) : bool :=
  patternCompare (utf8_characters None pattern) (utf8_characters None text).

Local Open Scope string_scope.

(** The statement the handler builds: [SELECT * FROM temples WHERE 1=1],
    then [AND city LIKE ?] and [AND type IN (?, ..., ?)] when asked for, with
    the values bound to the [?]s. *)
Record select_temples := {
  city_like : option string;
  type_in : option (list string)
}.

(** A comparison with NULL is not true, so a row whose [city] is NULL fails
    [city LIKE ?]. *)
Definition where_holds (stmt : select_temples) (r : Temple.row) : bool :=
  match city_like stmt with
  | None => true
  | Some pattern =>
      match Temple.city r with
      | Some c => sql_like (list_ascii_of_string pattern) (list_ascii_of_string c)
      | None => false
      end
  end
  &&
  match type_in stmt with
  | None => true
  | Some types => existsb (String.eqb (Temple.type r)) types
  end.

(** The JavaScript object of a row, as [all()] builds it anew at each call,
    and the [distance] property the handler may add to it. *)
Record temple := {
  row : Temple.row;
  distance : option number
}.

Definition set_distance (t : temple) (d : number) : temple :=
  {| row := row t; distance := Some d |}.

(** [db.prepare(query).all(...params)]: reads the table, changes nothing. *)
Definition db_all (stmt : select_temples) (db : database) : list temple * database :=
  (map (fun r => {| row := r; distance := None |})
       (filter (where_holds stmt) (temples_table db)),
   db).

(** ** The request *)

(** [req.query]: each parameter is absent ([undefined]) or a string, as the
    handler's casts to [string] have it.  (A parameter given twice, which
    Express would hand over as an array, is not modelled.) *)
Module Query.
Record t := {
  city : option string;
  type : option string;
  lat : option string;
  lng : option string;
  radius : option string
}.
End Query.

(** Truthiness of a query parameter: present and not the empty string. *)
Definition truthy (v : option string) : bool :=
  match v with
  | Some s => negb (s =? "")
  | None => false
  end.

Definition text (v : option string) : string :=
  match v with Some s => s | None => "" end.

(** [s.split(",")] *)
Fixpoint split_comma_aux (cur : string) (l : list ascii) : list string :=
  match l with
  | [] => [cur]
  | c :: r =>
      if Ascii.eqb c ","%char then cur :: split_comma_aux "" r
      else split_comma_aux (cur ++ String c "") r
  end.

Definition split_comma (s : string) : list string :=
  split_comma_aux "" (list_ascii_of_string s).

(** [null] where a Number is expected: [ToNumber(null)] is [+0].  The
    arithmetic of [getDistance] applies it to [t.lat] and [t.lng]. *)
Definition ToNumber (v : option number) : number :=
  match v with
  | Some x => x
  | None => 0%float
  end.

(** The text of the default [radius = 10] once [parseFloat] has applied
    [ToString] to it. *)
Definition radius_default : string := "10".

(** ** The handler of [GET /api/temples] *)

Record response := {
  status : Z;
  body : list temple
}.

(** [res.json(body)]: status 200 unless set otherwise. *)
Definition res_json (b : list temple) : response := {| status := 200; body := b |}.

Section Handler.
Variable M : MathLib.

(** The callback of [temples.filter] *)
Definition within (userLat userLng r : number) (t : temple) : temple * bool :=
  let d := getDistance M userLat userLng
             (ToNumber (Temple.lat (row t))) (ToNumber (Temple.lng (row t))) in
  (set_distance t d, js_le d r).

(** The callback of [temples.sort] *)
Definition by_distance (a b : temple) : number :=
  (match distance a with Some x => x | None => nan end
   - match distance b with Some x => x | None => nan end)%float.

Definition rank (lat lng radius : string) (temples : list temple) : list temple :=
  let userLat := parseFloat lat in
  let userLng := parseFloat lng in
  let r := parseFloat radius in
  let temples := Array_filter (within userLat userLng r) temples in
  Array_sort by_distance temples.

(** The statement and the values bound to it *)
Definition statement (req : Query.t) : select_temples :=
  {| city_like := if truthy (Query.city req)
                  then Some ("%" ++ text (Query.city req) ++ "%") else None;
     type_in := if truthy (Query.type req)
                then Some (split_comma (text (Query.type req))) else None |}.

Definition api_temples (req : Query.t) (db : database) : response * database :=
  let radius := match Query.radius req with Some s => s | None => radius_default end in
  let '(temples, db) := db_all (statement req) db in
  let temples :=
    if truthy (Query.lat req) && truthy (Query.lng req)
    then rank (text (Query.lat req)) (text (Query.lng req)) radius temples
    else temples in
  (res_json temples, db).
End Handler.

(** ** The statement as the handler writes it *)

Local Open Scope string_scope.

(** [query] and [params] when the handler calls [db.prepare(query)] and
    [all(...params)] *)
Definition query (req : Query.t) : string :=
  let query := "SELECT * FROM temples WHERE 1=1" in
  let query := if truthy (Query.city req) then query ++ " AND city LIKE ?" else query in
  if truthy (Query.type req)
  then query ++ " AND type IN ("
         ++ String.concat "," (map (fun _ => "?") (split_comma (text (Query.type req))))
         ++ ")"
  else query.

Definition params (req : Query.t) : list string :=
  app (if truthy (Query.city req) then ["%" ++ text (Query.city req) ++ "%"] else [])
      (if truthy (Query.type req) then split_comma (text (Query.type req)) else []).

(** What SQLite makes of the text of a statement.  The statements of this
    model are those on [temples] under the [WHERE] clause of the search,
    written as the handler writes it: the [SELECT], and the
    [DELETE ... RETURNING *] that [all()] runs as well and that removes
    the rows it returns. *)
Inductive verb := SELECT | DELETE.

Record prepared := {
  stmt_verb : verb;
  stmt_city : bool;
  stmt_types : option nat
}.

Fixpoint strip_prefix (prefix s : string) : option string :=
  match prefix with
  | EmptyString => Some s
  | String c prefix' =>
      match s with
      | String d s' => if Ascii.eqb c d then strip_prefix prefix' s' else None
      | EmptyString => None
      end
  end.

(** The placeholders after the first one of [IN (?]: their number and
    what follows the closing parenthesis *)
Fixpoint more_placeholders (s : string) : option (nat * string) :=
  match s with
  | String ")" s' => Some (O, s')
  | String "," (String "?" s') =>
      match more_placeholders s' with
      | Some (n, rest) => Some (S n, rest)
      | None => None
      end
  | _ => None
  end.

(** [db.prepare(sql)]: [None] for a text that is not one of the model's *)
Definition sqlite3_prepare (sql : string) : option prepared :=
  match
    match strip_prefix "SELECT * FROM temples WHERE 1=1" sql with
    | Some rest => Some (SELECT, rest)
    | None =>
        match strip_prefix "DELETE FROM temples WHERE 1=1" sql with
        | Some rest => Some (DELETE, rest)
        | None => None
        end
    end
  with
  | Some (v, rest) =>
      let '(city, rest) :=
        match strip_prefix " AND city LIKE ?" rest with
        | Some rest' => (true, rest')
        | None => (false, rest)
        end in
      match
        match strip_prefix " AND type IN (?" rest with
        | Some rest' =>
            match more_placeholders rest' with
            | Some (n, rest'') => Some (Some (S n), rest'')
            | None => None
            end
        | None => Some (None, rest)
        end
      with
      | Some (types, rest) =>
          if String.eqb rest (match v with SELECT => "" | DELETE => " RETURNING *" end)
          then Some {| stmt_verb := v; stmt_city := city; stmt_types := types |}
          else None
      | None => None
      end
  | None => None
  end.

Definition placeholders (stmt : prepared) : nat :=
  ((if stmt_city stmt then 1 else 0) +
   match stmt_types stmt with Some n => n | None => 0 end)%nat.

(** The values bound to the placeholders, in their order *)
Definition bound (stmt : prepared) (values : list string) : select_temples :=
  {| city_like := if stmt_city stmt then Some (hd "" values) else None;
     type_in := match stmt_types stmt with
                | Some _ => Some (if stmt_city stmt then tl values else values)
                | None => None
                end |}.

(** [stmt.all(...params)]: the rows, and the table afterwards; [None] for
    the rows when the call throws, the values not being as many as the
    placeholders. *)
Definition stmt_all (stmt : prepared) (values : list string) (db : database)
  : option (list temple) * database :=
  if Nat.eqb (List.length values) (placeholders stmt) then
    let hit := where_holds (bound stmt values) in
    let rows := map (fun r => {| row := r; distance := None |})
                  (filter hit (temples_table db)) in
    match stmt_verb stmt with
    | SELECT => (Some rows, db)
    | DELETE =>
        (Some rows,
         {| temples_table := filter (fun r => negb (hit r)) (temples_table db) |})
    end
  else (None, db).

(** The handler of [GET /api/temples] with the statement as text; [None]
    for the response when [prepare] or [all] throws. *)
Definition api_temples_sql (M : MathLib) (req : Query.t) (db : database)
  : option response * database :=
  let radius := match Query.radius req with Some s => s | None => radius_default end in
  match sqlite3_prepare (query req) with
  | Some stmt =>
      match stmt_all stmt (params req) db with
      | (Some temples, db) =>
          let temples :=
            if truthy (Query.lat req) && truthy (Query.lng req)
            then rank M (text (Query.lat req)) (text (Query.lng req)) radius temples
            else temples in
          (Some (res_json temples), db)
      | (None, db) => (None, db)
      end
  | None => (None, db)
  end.

Local Close Scope string_scope.

(** ** Vocabulary of the specification *)

(** A reference point is supplied: the handler ranks when [lat && lng] is
    truthy. *)
Definition reference_point_supplied (req : Query.t) : bool :=
  truthy (Query.lat req) && truthy (Query.lng req).

(** The reference point and the radius of the request, as the handler parses
    them. *)
Definition userLat (req : Query.t) : number := parseFloat (text (Query.lat req)).
Definition userLng (req : Query.t) : number := parseFloat (text (Query.lng req)).
Definition radiusKm (req : Query.t) : number :=
  parseFloat (match Query.radius req with Some s => s | None => radius_default end).

(** The entries that pass the city and category filter, in catalog order *)
Definition selected (req : Query.t) (db : database) : list temple :=
  fst (db_all (statement req) db).

(** The distance attached to a result, NaN when there is none *)
Definition distanceKm (t : temple) : number :=
  match distance t with Some x => x | None => nan end.

(** The distance the handler computes for an entry: a NULL coordinate of the
    entry counts as [0]. *)
Definition distance_to (M : MathLib) (req : Query.t) (t : temple) : number :=
  getDistance M (userLat req) (userLng req)
    (ToNumber (Temple.lat (row t))) (ToNumber (Temple.lng (row t))).

(** The term [a] of [getDistance]: the haversine of the angle between the
    two points *)
Definition haversine_a (M : MathLib) (lat1 lon1 lat2 lon2 : number) : number :=
  let dLat := (lat2 - lat1) * Math_PI / 180 in
  let dLon := (lon2 - lon1) * Math_PI / 180 in
  Math_sin M (dLat / 2) * Math_sin M (dLat / 2) +
  Math_cos M (lat1 * Math_PI / 180) * Math_cos M (lat2 * Math_PI / 180) *
  Math_sin M (dLon / 2) * Math_sin M (dLon / 2).

(** Latitude in [[-90, 90]] and longitude in [[-180, 180]] *)
Definition valid_coordinate (lat lng : number) : bool :=
  js_le (-90) lat && js_le lat 90 && js_le (-180) lng && js_le lng 180.

(** The same request with another [radius] parameter *)
Definition with_radius (req : Query.t) (radius : option string) : Query.t :=
  {| Query.city := Query.city req; Query.type := Query.type req;
     Query.lat := Query.lat req; Query.lng := Query.lng req;
     Query.radius := radius |}.

Local Close Scope string_scope.

(** ** A reference [Math] library

    One library that conforms to ECMA-262, computed in 128-bit fixed point
    and rounded to binary64.  It shows that what the theorems below ask of
    [Math.sin], [Math.cos] and [Math.atan2] can be met, and it lets the
    handler run on concrete requests. *)
Module RefMath.
Local Open Scope Z_scope.

Definition FRAC : Z := 128.
Definition ONE : Z := 2 ^ FRAC.
(** [floor (pi * 2^128)] *)
Definition PI : Z := 0x3243f6a8885a308d313198a2e03707344.

Definition fmul (a b : Z) : Z := Z.shiftr (a * b) FRAC.

(** [floor (|x| * 2^128)] of a finite [x] *)
Definition fix_of_float (x : float) : Z :=
  match Prim2SF x with
  | S754_finite _ m e => Z.shiftl (Zpos m) (e + FRAC)
  | _ => 0
  end.

Definition float_of_fix (v : Z) : float :=
  SF2Prim (binary_normalize prec emax v (- FRAC) false).

(** Taylor series of the sine: [n] more terms, the last one added being
    [term], of index [k]. *)
Fixpoint sin_series (n : nat) (k : Z) (x2 term acc : Z) : Z :=
  match n with
  | O => acc
  | S n' =>
      let term' := - (fmul term x2) / ((2 * k) * (2 * k + 1)) in
      sin_series n' (k + 1) x2 term' (acc + term')
  end.

(** Sine of a fixed-point angle [v >= 0] *)
Definition sin_fix (v : Z) : Z :=
  let v := v mod (2 * PI) in
  let '(neg, v) := if PI <=? v then (true, v - PI) else (false, v) in
  let v := if PI <? 2 * v then PI - v else v in
  let s := sin_series 40 1 (fmul v v) v v in
  if neg then - s else s.

Definition clamp_unit (x : float) : float :=
  if (x <=? 1)%float then (if (-1 <=? x)%float then x else (-1)%float) else 1%float.

Definition sin (x : float) : float :=
  if is_nan x || is_infinity x then nan
  else if is_zero x then x
  else
    let ax := abs x in
    let s := if (ax <? 0x1p-26)%float then ax
             else clamp_unit (float_of_fix (sin_fix (fix_of_float ax))) in
    if (x <? 0)%float then (- s)%float else s.

Definition cos (x : float) : float :=
  if is_nan x || is_infinity x then nan
  else
    let ax := abs x in
    if (ax <? 0x1p-27)%float then 1%float
    else clamp_unit (float_of_fix (sin_fix (fix_of_float ax + PI / 2))).

(** Taylor series of the arc tangent, for a small argument *)
Fixpoint atan_series (n : nat) (k : Z) (x2 pow acc : Z) : Z :=
  match n with
  | O => acc
  | S n' =>
      let pow' := - (fmul pow x2) in
      atan_series n' (k + 1) x2 pow' (acc + pow' / (2 * k + 1))
  end.

(** [atan t = 2 * atan (t / (1 + sqrt (1 + t^2)))] *)
Definition atan_halve (t : Z) : Z :=
  (t * ONE) / (ONE + Z.sqrt (ONE * ONE + t * t)).

(** Arc tangent of a fixed-point [0 <= t <= 1] *)
Definition atan_fix (t : Z) : Z :=
  let u := atan_halve (atan_halve (atan_halve t)) in
  8 * atan_series 40 1 (fmul u u) u u.

(** [floor ((m1 * 2^e1) / (m2 * 2^e2) * 2^128)] *)
Definition ratio_fix (m1 : positive) (e1 : Z) (m2 : positive) (e2 : Z) : Z :=
  let e := Z.min e1 e2 in
  Z.shiftl (Z.shiftl (Zpos m1) (e1 - e)) FRAC / Z.shiftl (Zpos m2) (e2 - e).

(** The angle of the point [(|x|, |y|)] for finite non-zero [x] and [y] *)
Definition angle_fix (y x : float) : Z :=
  match Prim2SF y, Prim2SF x with
  | S754_finite _ my ey, S754_finite _ mx ex =>
      if (abs y <=? abs x)%float then atan_fix (ratio_fix my ey mx ex)
      else PI / 2 - atan_fix (ratio_fix mx ex my ey)
  | _, _ => 0
  end.

Definition with_sign_of (y v : float) : float :=
  if get_sign y then (- v)%float else v.

(** [Math.atan2(y, x)], the cases in the order of ECMA-262 *)
Definition atan2 (y x : float) : float :=
  if is_nan y || is_nan x then nan
  else if is_infinity y then
    with_sign_of y
      (if is_infinity x
       then (if get_sign x then float_of_fix (3 * PI / 4) else float_of_fix (PI / 4))
       else float_of_fix (PI / 2))
  else if is_zero y then
    with_sign_of y (if get_sign x then float_of_fix PI else 0%float)
  else if is_infinity x then
    with_sign_of y (if get_sign x then float_of_fix PI else 0%float)
  else if is_zero x then
    with_sign_of y (float_of_fix (PI / 2))
  else if (0 <? x)%float then
    if (abs y <? abs x * 0x1p-64)%float then (y / x)%float
    else with_sign_of y (float_of_fix (angle_fix y x))
  else
    with_sign_of y (float_of_fix (PI - angle_fix y x)).

Definition lib : MathLib :=
  {| Math_sin := sin; Math_cos := cos; Math_atan2 := atan2 |}.
End RefMath.

(** ** What the proofs ask of the [Math] library *)

(** The clauses of ECMA-262 (sec. 21.3.2) that the proofs use: the sine of
    NaN and of [+0], the cosine of [+0], [atan2] of a NaN and of [+0] with a
    positive abscissa. *)
Record ES_conforming (M : MathLib) : Prop := {
  sin_NaN : Math_sin M nan = nan;
  sin_zero : Math_sin M 0 = 0;
  cos_zero : Math_cos M 0 = 1;
  atan2_NaN : forall x, Math_atan2 M nan x = nan;
  atan2_zero_pos : forall x, (0 <? x) = true -> Math_atan2 M 0 x = 0
}.

(** Two properties that ECMA-262 leaves to the implementation and that the
    libraries in use have: the sine is odd, and the cosine of a finite number
    lies between [-1] and [1]. *)
Definition sin_odd (M : MathLib) : Prop :=
  forall x, Math_sin M (- x) = - Math_sin M x.

Definition cos_bounded (M : MathLib) : Prop :=
  forall x, is_finite x = true ->
    (-1 <=? Math_cos M x) && (Math_cos M x <=? 1) = true.

(** ECMA-262 on [Math.atan2]: the result is NaN when an argument is NaN,
    and in no other case. *)
Definition atan2_NaN_only (M : MathLib) : Prop :=
  forall y x, is_nan (Math_atan2 M y x) = is_nan y || is_nan x.

(** ** The rows that db.ts seeds the table with *)

Local Open Scope string_scope.

Definition sampleTemples : list Temple.row :=
  [ {| Temple.id := 1;
       Temple.name := "Dagadusheth Halwai Ganapati Temple";
       Temple.type := "Hindu";
       Temple.address := Some "Ganpati Bhavan, 250, Budhwar Peth, Pune";
       Temple.city := Some "Pune";
       Temple.lat := Some 18.5164;
       Temple.lng := Some 73.8560;
       Temple.opening_hours := Some "6:00 AM - 11:00 PM";
       Temple.ritual_timings := Some "Aarti at 7:30 AM, 1:30 PM, 8:00 PM";
       Temple.festivals := Some "Ganesh Chaturthi";
       Temple.accessibility := Some "Wheelchair accessible, Parking available";
       Temple.contact := Some "020 2447 9622";
       Temple.description := Some "One of the most famous Ganesha temples in India.";
       Temple.image_url := Some "https://picsum.photos/seed/dagadusheth/800/600" |};
    {| Temple.id := 2;
       Temple.name := "Chaturshringi Temple";
       Temple.type := "Hindu";
       Temple.address := Some "Senapati Bapat Road, Pune";
       Temple.city := Some "Pune";
       Temple.lat := Some 18.5392;
       Temple.lng := Some 73.8273;
       Temple.opening_hours := Some "6:00 AM - 9:00 PM";
       Temple.ritual_timings := Some "Morning Puja at 7:00 AM";
       Temple.festivals := Some "Navratri";
       Temple.accessibility := Some "Steps involved, limited accessibility";
       Temple.contact := Some "020 2565 0555";
       Temple.description := Some "A hill temple dedicated to Goddess Chaturshringi.";
       Temple.image_url := Some "https://picsum.photos/seed/chaturshringi/800/600" |};
    {| Temple.id := 3;
       Temple.name := "Osho Teerth Park (Near Buddhist Center)";
       Temple.type := "Buddhist";
       Temple.address := Some "Koregaon Park, Pune";
       Temple.city := Some "Pune";
       Temple.lat := Some 18.5375;
       Temple.lng := Some 73.8885;
       Temple.opening_hours := Some "6:00 AM - 9:00 AM, 3:00 PM - 6:00 PM";
       Temple.ritual_timings := Some "Meditation sessions";
       Temple.festivals := Some "Buddha Purnima";
       Temple.accessibility := Some "Wheelchair accessible paths";
       Temple.contact := Some "N/A";
       Temple.description := Some "A serene park and meditation space.";
       Temple.image_url := Some "https://picsum.photos/seed/osho/800/600" |};
    {| Temple.id := 4;
       Temple.name := "Katraj Jain Temple";
       Temple.type := "Jain";
       Temple.address := Some "Katraj, Pune";
       Temple.city := Some "Pune";
       Temple.lat := Some 18.4529;
       Temple.lng := Some 73.8554;
       Temple.opening_hours := Some "6:00 AM - 9:00 PM";
       Temple.ritual_timings := Some "Prakshal at 7:00 AM";
       Temple.festivals := Some "Mahavir Jayanti";
       Temple.accessibility := Some "Wheelchair accessible";
       Temple.contact := Some "N/A";
       Temple.description := Some "A beautiful Jain temple complex on a hillock.";
       Temple.image_url := Some "https://picsum.photos/seed/katrajjain/800/600" |};
    {| Temple.id := 5;
       Temple.name := "Gurudwara Guru Nanak Darbar";
       Temple.type := "Sikh";
       Temple.address := Some "Camp, Pune";
       Temple.city := Some "Pune";
       Temple.lat := Some 18.5126;
       Temple.lng := Some 73.8787;
       Temple.opening_hours := Some "Open 24 hours";
       Temple.ritual_timings := Some "Gurbani Kirtan throughout the day";
       Temple.festivals := Some "Gurpurab";
       Temple.accessibility := Some "Wheelchair accessible, Langar hall";
       Temple.contact := Some "N/A";
       Temple.description := Some "A major spiritual center for the Sikh community in Pune.";
       Temple.image_url := Some "https://picsum.photos/seed/gurudwara/800/600" |} ].

Definition seeded : database := {| temples_table := sampleTemples |}.

Local Close Scope string_scope.

(** * The rest of the server and the client

    What the theorems on the search do not need, and the later parts of
    this file are about: the meaning of the [WHERE] clause, the type
    filter of the client, the accounts, and the distance line of the
    detail panel. *)

(** ** The ranking, row by row *)

(** The distance of a catalog row from the reference point of the request,
    NULL coordinates read as [0] *)
Definition row_distance (M : MathLib) (req : Query.t) (r : Temple.row) : number :=
  getDistance M (userLat req) (userLng req)
    (ToNumber (Temple.lat r)) (ToNumber (Temple.lng r)).

(** The rows that a ranked search keeps: those that pass the [WHERE] clause
    and lie within the radius *)
Definition kept (M : MathLib) (req : Query.t) (r : Temple.row) : bool :=
  where_holds (statement req) r && js_le (row_distance M req r) (radiusKm req).

Definition ranked_entry (M : MathLib) (req : Query.t) (r : Temple.row) : temple :=
  {| row := r; distance := Some (row_distance M req r) |}.

(** The table as a [SELECT] without [ORDER BY] scans it: by ascending
    rowid *)
Definition in_rowid_order (db : database) : Prop :=
  StronglySorted Z.lt (map Temple.id (temples_table db)).

(** ** The [WHERE] clause in words *)




(** ** The type filter of the client (App.tsx) *)

Local Open Scope string_scope.

(** [selectedTypes.join(',')], the value [fetchTemples] gives to [type] *)
Definition Array_join_comma (selectedTypes : list string) : string :=
  String.concat "," selectedTypes.

(** [toggleType]: the updater it hands to [setSelectedTypes] *)
Definition toggleType (type : string) (prev : list string) : list string :=
  if existsb (String.eqb type) prev
  then filter (fun t => negb (String.eqb t type)) prev
  else (prev ++ [type])%list.

Definition no_comma (s : string) : bool :=
  forallb (fun c => negb (Ascii.eqb c ","%char)) (list_ascii_of_string s).

Local Close Scope string_scope.

(** ** Accounts: [POST /api/auth/register] and [POST /api/auth/login] *)

Local Open Scope string_scope.
Local Open Scope Z_scope.

(** A row of [users] (db.ts).  Every column but [id] may hold NULL. *)
Module User.
Record row := {
  id : Z;
  email : option string;
  password : option string;
  name : option string;
  created_at : option string
}.
End User.

(** The [users] table in rowid order, and the entry of [sqlite_sequence]
    that [AUTOINCREMENT] keeps for it: the largest rowid handed out so far. *)
Record accounts := {
  users_table : list User.row;
  users_seq : Z
}.

(** The table as [CREATE TABLE IF NOT EXISTS] leaves a new database file *)
Definition no_accounts : accounts := {| users_table := []; users_seq := 0 |}.

(** A field that a handler takes from [req.body], the object that
    [express.json()] parsed: absent ([undefined]), [null] or a string.
    Numbers, booleans, arrays and objects in the place of a field are not
    modelled (SQLite turns a number into text, and better-sqlite3 spreads an
    array over the placeholders of the statement). *)
Inductive json_field :=
| Absent
| JNull
| JString (s : string).

(** What better-sqlite3 binds to a placeholder: NULL for [null], the text
    for a string; [undefined] cannot be bound, and the call throws. *)
Definition bind (v : json_field) : option (option string) :=
  match v with
  | Absent => None
  | JNull => Some None
  | JString s => Some (Some s)
  end.

(** A rowid as better-sqlite3 hands it to JavaScript: the 64-bit integer
    converted to a Number, to the nearest one when it is above [2^53]. *)
Definition Number_of_int64 (rowid : Z) : number :=
  SF2Prim (binary_normalize prec emax rowid 0 false).

(** What the handlers take from [bcryptjs] and [jsonwebtoken].  [bcrypt.hash]
    draws a salt and [jwt.sign] reads the clock for the [iat] field: both
    are made arguments. *)
Record AuthLib := {
  bcrypt_hash : string -> Z -> string -> string;
  bcrypt_compare : string -> string -> bool;
  jwt_sign : number -> string -> Z -> string
}.

(** What a request finds around it: the salt drawn for it, the clock of
    [jwt.sign] and the text of SQLite's [CURRENT_TIMESTAMP]. *)
Record moment := {
  salt : string;
  iat : Z;
  CURRENT_TIMESTAMP : string
}.

(** [bcrypt.compare] accepts a password against every hash made of it. *)
Definition bcrypt_sound (L : AuthLib) : Prop :=
  forall password rounds s,
    bcrypt_compare L password (bcrypt_hash L password rounds s) = true.

(** The largest rowid SQLite can hand out; past it an [INSERT] fails with
    [SQLITE_FULL]. *)
Definition max_rowid : Z := 9223372036854775807.

Definition largest_rowid (users : list User.row) : Z :=
  fold_right (fun u m => Z.max (User.id u) m) 0 users.

(** The rowid [AUTOINCREMENT] gives the next row: one more than the largest
    that is or ever was in the table. *)
Definition next_rowid (db : accounts) : Z :=
  Z.max (largest_rowid (users_table db)) (users_seq db) + 1.

Definition has_email (email : string) (u : User.row) : bool :=
  match User.email u with
  | Some e => String.eqb e email
  | None => false
  end.

(** [UNIQUE] on [email]: a text that a row already holds is refused; NULL
    is not, however many rows hold it. *)
Definition email_in_use (email : option string) (users : list User.row) : bool :=
  match email with
  | Some e => existsb (has_email e) users
  | None => false
  end.

(** [INSERT INTO users (email, password, name) VALUES (?, ?, ?)] with
    [stmt.run], the values bound: [None] when the statement throws, which
    it does when [email] breaks [UNIQUE] or the rowids are used up; else
    the rowid of the new row and the table with it. *)
Definition insert_user (email : option string) (password : string) (name : option string)
  (now : string) (db : accounts) : option (Z * accounts) :=
  let rowid := next_rowid db in
  if email_in_use email (users_table db) then None
  else if max_rowid <? rowid then None
  else Some (rowid,
             {| users_table :=
                  (users_table db ++
                   [ {| User.id := rowid;
                        User.email := email;
                        User.password := Some password;
                        User.name := name;
                        User.created_at := Some now |} ])%list;
                users_seq := rowid |}).

(** [db.prepare("SELECT * FROM users WHERE email = ?").get(email)]: no row
    when [email] is NULL, which equals nothing. *)
Definition get_user (email : option string) (db : accounts) : option User.row :=
  match email with
  | Some e => find (has_email e) (users_table db)
  | None => None
  end.

(** The [user] object of a response *)
Record account := {
  account_id : number;
  account_email : option string;
  account_name : option string
}.

Inductive auth_json :=
| Session (token : string) (user : account)
| Failure (error : string).

Record auth_response := {
  auth_status : Z;
  auth_body : auth_json
}.

Section Auth.
Variable L : AuthLib.
Variable JWT_SECRET : string.

(** The handlers give [None] for the response when an error leaves them:
    [bcrypt.hash] and [bcrypt.compare] reject what is not a string, and in
    [login] nothing catches what [get] throws. *)
Definition register (email password name : json_field) (env : moment) (db : accounts)
  : option auth_response * accounts :=
  match password with
  | JString password =>
      let hashedPassword := bcrypt_hash L password 10 (salt env) in
      let refused :=
        (Some {| auth_status := 400; auth_body := Failure "Email already exists" |}, db) in
      match bind email, bind name with
      | Some email, Some name =>
          match insert_user email hashedPassword name (CURRENT_TIMESTAMP env) db with
          | Some (rowid, db) =>
              let lastInsertRowid := Number_of_int64 rowid in
              let token := jwt_sign L lastInsertRowid JWT_SECRET (iat env) in
              (Some {| auth_status := 200;
                       auth_body := Session token {| account_id := lastInsertRowid;
                                                     account_email := email;
                                                     account_name := name |} |}, db)
          | None => refused
          end
      | _, _ => refused
      end
  | _ => (None, db)
  end.

Definition login (email password : json_field) (env : moment) (db : accounts)
  : option auth_response * accounts :=
  match bind email with
  | Some email =>
      match get_user email db with
      | Some user =>
          match password, User.password user with
          | JString password, Some hash =>
              if bcrypt_compare L password hash then
                let id := Number_of_int64 (User.id user) in
                let token := jwt_sign L id JWT_SECRET (iat env) in
                (Some {| auth_status := 200;
                         auth_body := Session token {| account_id := id;
                                                       account_email := User.email user;
                                                       account_name := User.name user |} |}, db)
              else
                (Some {| auth_status := 401; auth_body := Failure "Invalid credentials" |}, db)
          | _, _ => (None, db)
          end
      | None =>
          (Some {| auth_status := 401; auth_body := Failure "Invalid credentials" |}, db)
      end
  | None => (None, db)
  end.

(** The requests of the two routes, and the table after a run of them *)
Inductive auth_request :=
| Register (email password name : json_field)
| Login (email password : json_field).

Definition serve (db : accounts) (r : auth_request * moment) : accounts :=
  match fst r with
  | Register email password name => snd (register email password name (snd r) db)
  | Login email password => snd (login email password (snd r) db)
  end.

Definition serve_all (requests : list (auth_request * moment)) (db : accounts) : accounts :=
  fold_left serve requests db.

(** What holds of the table whatever was served: rowids are not shared and
    lie between 1 and the sequence, emails are not shared, and the password
    of every row is a hash that [bcrypt] made with cost 10. *)
Definition stored_emails (users : list User.row) : list string :=
  flat_map (fun u => match User.email u with Some e => [e] | None => [] end) users.

Definition hashed_row (u : User.row) : Prop :=
  exists password s, User.password u = Some (bcrypt_hash L password 10 s).

Record accounts_ok (db : accounts) : Prop := {
  ids_distinct : NoDup (map User.id (users_table db));
  emails_distinct : NoDup (stored_emails (users_table db));
  ids_in_sequence : Forall (fun u => 1 <= User.id u <= users_seq db) (users_table db);
  rows_hashed : Forall hashed_row (users_table db)
}.
End Auth.

(** A library that meets [bcrypt_sound], to run the handlers on examples:
    the hash is the password behind a mark (nothing a server should use). *)
Module PlainAuth.
Definition hash (password : string) (rounds : Z) (s : string) : string :=
  String "#"%char password.
Definition compare (password hash : string) : bool :=
  String.eqb hash (String "#"%char password).
Definition sign (userId : number) (secret : string) (now : Z) : string :=
  secret ++ (if (userId =? 1)%float then ".1" else ".n").
Definition lib : AuthLib :=
  {| bcrypt_hash := hash; bcrypt_compare := compare; jwt_sign := sign |}.
End PlainAuth.

Definition noon : moment :=
  {| salt := "s"; iat := 1700000000; CURRENT_TIMESTAMP := "2023-11-14 22:13:20" |}.

(** One visitor has registered, and someone sent a body without a name *)
Definition one_account : accounts :=
  serve_all PlainAuth.lib "k"
    [(Register (JString "asha@example.org") (JString "lotus") (JString "Asha"), noon);
     (Register (JString "ravi@example.org") (JString "reed") Absent, noon)]
    no_accounts.

Local Close Scope Z_scope.
Local Close Scope string_scope.

(** ** Seeding the catalog at start-up (db.ts) *)

Local Open Scope Z_scope.

(** The [temples] table and the entry of [sqlite_sequence] that
    [AUTOINCREMENT] keeps for it *)
Record catalog := {
  temples : database;
  temples_seq : Z
}.

(** A new database file, once [CREATE TABLE IF NOT EXISTS] has run *)
Definition new_file : catalog :=
  {| temples := {| temples_table := [] |}; temples_seq := 0 |}.

(** The values of a row under the rowid that the table gives it *)
Definition with_id (rowid : Z) (values : Temple.row) : Temple.row :=
  {| Temple.id := rowid;
     Temple.name := Temple.name values;
     Temple.type := Temple.type values;
     Temple.address := Temple.address values;
     Temple.city := Temple.city values;
     Temple.lat := Temple.lat values;
     Temple.lng := Temple.lng values;
     Temple.opening_hours := Temple.opening_hours values;
     Temple.ritual_timings := Temple.ritual_timings values;
     Temple.festivals := Temple.festivals values;
     Temple.accessibility := Temple.accessibility values;
     Temple.contact := Temple.contact values;
     Temple.description := Temple.description values;
     Temple.image_url := Temple.image_url values |}.

Definition largest_temple_id (rows : list Temple.row) : Z :=
  fold_right (fun r m => Z.max (Temple.id r) m) 0 rows.

Definition last_temple_id (c : catalog) : Z :=
  Z.max (largest_temple_id (temples_table (temples c))) (temples_seq c).

(** [insertTemple.run(...temple)]: [None] when the statement throws, the
    rowids being used up. *)
Definition insertTemple_run (values : Temple.row) (c : catalog) : option catalog :=
  let rowid := last_temple_id c + 1 in
  if max_rowid <? rowid then None
  else Some {| temples :=
                 {| temples_table :=
                      (temples_table (temples c) ++ [with_id rowid values])%list |};
               temples_seq := rowid |}.

(** [for (const temple of sampleTemples) insertTemple.run(...temple)]: the
    catalog when the loop is left, and whether it was left at its end
    ([false]: by an error, the rows inserted before it staying). *)
Fixpoint insert_each (rows : list Temple.row) (c : catalog) : catalog * bool :=
  match rows with
  | [] => (c, true)
  | values :: rows =>
      match insertTemple_run values c with
      | Some c => insert_each rows c
      | None => (c, false)
      end
  end.

(** The block of db.ts that seeds the table when [COUNT( * )] is [0] *)
Definition seed (c : catalog) : catalog * bool :=
  let count := Z.of_nat (List.length (temples_table (temples c))) in
  if count =? 0 then insert_each sampleTemples c else (c, true).

(** Rows numbered from [rowid] on *)
Fixpoint numbered (rowid : Z) (rows : list Temple.row) : list Temple.row :=
  match rows with
  | [] => []
  | values :: rows => with_id rowid values :: numbered (rowid + 1) rows
  end.

Local Close Scope Z_scope.

(** ** The distance line of the detail panel (App.tsx) *)

(** [selectedTemple.distance ? `${selectedTemple.distance.toFixed(1)} km` : 'N/A']:
    the number that is shown, or "N/A". *)
Inductive distance_line :=
| Kilometres (distance : number)
| NotAvailable.

(** A Number is truthy unless it is [0], [-0] or NaN. *)
Definition truthy_number (x : number) : bool :=
  negb ((x =? 0) || is_nan x).

(** [None] is a [distance] that is [undefined] or [null]. *)
Definition distance_line_of (distance : option number) : distance_line :=
  match distance with
  | Some d => if truthy_number d then Kilometres d else NotAvailable
  | None => NotAvailable
  end.

Section Display.
(** A Number of the response as the client reads it back from the JSON
    text, [None] when it reads [null]. *)
Variable JSON_number : number -> option number.

Definition received_distance (t : temple) : option number :=
  match distance t with
  | Some d => JSON_number d
  | None => None
  end.
End Display.

(** The round trip of the finite Numbers, for the examples *)
Definition JSON_finite (x : number) : option number :=
  if is_finite x then Some x else None.

Local Open Scope string_scope.

(** A visitor at the door of the first temple of the catalog *)
Definition at_dagadusheth : Query.t :=
  {| Query.city := Some ""; Query.type := None;
     Query.lat := Some "18.5164"; Query.lng := Some "73.856";
     Query.radius := None |}.

Local Close Scope string_scope.

(** * Binary64 arithmetic

    The facts about IEEE 754 binary64 that the handler relies on, proved
    from the bit-level specification of the operations ([SpecFloat]) and
    carried over to primitive floats through [Prim2SF]. *)

Local Open Scope Z_scope.

Module SF.
Abbreviation digits := Zdigits2.

Lemma digits2_pos_size p : digits2_pos p = Pos.size p.
Proof. induction p; simpl; congruence. Qed.

Lemma digits_log2 m : 0 < m -> digits m = Z.log2 m + 1.
Proof.
  destruct m as [|p|p]; try lia. intros _. simpl.
  rewrite digits2_pos_size. destruct p; simpl; lia.
Qed.

Lemma digits_nonneg m : 0 <= digits m.
Proof. destruct m; simpl; lia. Qed.

Lemma digits_le m n : 0 <= m <= n -> digits m <= digits n.
Proof.
  intros [H0 H1]. destruct (Z.eq_dec m 0) as [->|]; [apply digits_nonneg|].
  rewrite !digits_log2 by lia. pose proof (Z.log2_le_mono m n H1). lia.
Qed.

Lemma digits_lt_pow m k : 0 <= m -> 0 <= k -> (digits m <= k <-> m < 2 ^ k).
Proof.
  intros Hm Hk. destruct (Z.eq_dec m 0) as [->|].
  - simpl. split; intros; [apply Z.pow_pos_nonneg; lia | lia].
  - rewrite digits_log2 by lia. split; intros H.
    + apply Z.log2_lt_pow2; lia.
    + apply Z.log2_lt_pow2 in H; lia.
Qed.

Lemma digits_shiftr m n : 0 <= m -> 0 <= n -> digits (Z.shiftr m n) = Z.max 0 (digits m - n).
Proof.
  intros Hm Hn. destruct (Z.eq_dec m 0) as [->|].
  - rewrite Z.shiftr_0_l. simpl. lia.
  - destruct (Z.eq_dec (Z.shiftr m n) 0) as [E|NE].
    + rewrite E. simpl. apply Z.shiftr_eq_0_iff in E. rewrite digits_log2 by lia. lia.
    + pose proof (Z.shiftr_nonneg m n). rewrite !digits_log2 by lia.
      rewrite Z.log2_shiftr by lia.
      assert (Z.log2 m >= n).
      { destruct (Z_lt_le_dec (Z.log2 m) n); [|lia]. exfalso. apply NE.
        apply Z.shiftr_eq_0; lia. }
      lia.
Qed.

Lemma digits_mul m n : 0 <= m -> 0 <= n -> digits (m * n) <= digits m + digits n.
Proof.
  intros Hm Hn. destruct (Z.eq_dec m 0) as [->|]; [simpl; apply digits_nonneg|].
  destruct (Z.eq_dec n 0) as [->|]; [rewrite Z.mul_0_r; simpl; pose proof (digits_nonneg m); lia|].
  rewrite !digits_log2 by nia. pose proof (Z.log2_mul_above m n). lia.
Qed.

Lemma digits_succ m : 0 <= m -> digits (m + 1) <= digits m + 1.
Proof.
  intros Hm. destruct (Z.eq_dec m 0) as [->|]; [simpl; lia|].
  rewrite !digits_log2 by lia.
  assert (Z.log2 (m + 1) <= Z.log2 (2 * m)) by (apply Z.log2_le_mono; lia).
  rewrite Z.log2_double in H by lia. lia.
Qed.

Abbreviation emin := (SpecFloat.emin prec emax).
Abbreviation fexp := (SpecFloat.fexp prec emax).

Lemma shr_1_m mrs : 0 <= shr_m mrs -> shr_m (shr_1 mrs) = Z.shiftr (shr_m mrs) 1.
Proof.
  destruct mrs as [m r s]. simpl. intros Hm.
  rewrite Z.shiftr_div_pow2 by lia. change (2 ^ 1) with 2.
  destruct m as [|[p|p|]|p]; simpl; try reflexivity; try lia.
  - apply Z.div_unique with 1; lia.
  - apply Z.div_unique with 0; lia.
Qed.

Lemma shr_iter_m p : forall mrs, 0 <= shr_m mrs ->
  shr_m (iter_pos shr_1 p mrs) = Z.shiftr (shr_m mrs) (Zpos p).
Proof.
  assert (N : forall mrs, 0 <= shr_m mrs -> 0 <= shr_m (shr_1 mrs)).
  { intros mrs H. rewrite shr_1_m by assumption. apply Z.shiftr_nonneg; assumption. }
  induction p as [p IH|p IH|]; intros mrs Hm; simpl.
  - rewrite IH, IH, shr_1_m, !Z.shiftr_shiftr by
      (try lia; try (rewrite IH; [apply Z.shiftr_nonneg|]); auto).
    f_equal. lia.
  - rewrite IH, IH, !Z.shiftr_shiftr by
      (try lia; try (rewrite IH; [apply Z.shiftr_nonneg|]); auto).
    f_equal. lia.
  - apply shr_1_m; assumption.
Qed.

Lemma shr_record_of_loc_m m l : shr_m (shr_record_of_loc m l) = m.
Proof. destruct l as [|[| |]]; reflexivity. Qed.

(** The mantissa and the exponent that [shr_fexp] yields *)
Lemma shr_fexp_spec m e l : 0 <= m ->
  let n := Z.max 0 (fexp (digits m + e) - e) in
  shr_m (fst (shr_fexp prec emax m e l)) = Z.shiftr m n /\
  snd (shr_fexp prec emax m e l) = e + n.
Proof.
  intros Hm n. unfold shr_fexp, shr. subst n.
  destruct (fexp (digits m + e) - e) as [|p|p] eqn:E; simpl fst; simpl snd.
  - rewrite shr_record_of_loc_m. rewrite Z.max_l by lia. rewrite Z.shiftr_0_r. lia.
  - rewrite shr_iter_m by (rewrite shr_record_of_loc_m; assumption).
    rewrite shr_record_of_loc_m. rewrite Z.max_r by lia. auto.
  - rewrite shr_record_of_loc_m. rewrite Z.max_l by lia. rewrite Z.shiftr_0_r. lia.
Qed.

Lemma round_nearest_even_bounds m l : m <= round_nearest_even m l <= m + 1.
Proof. destruct l as [|[| |]]; simpl; try destruct (Z.even m); lia. Qed.

(** What [binary_round_aux] computes, step by step *)
Lemma binary_round_aux_eq s m e l : 0 <= m ->
  exists m1 m2 e1 e2,
    let n1 := Z.max 0 (fexp (digits m + e) - e) in
    let n2 := Z.max 0 (fexp (digits m1 + e1) - e1) in
    e1 = e + n1 /\ Z.shiftr m n1 <= m1 <= Z.shiftr m n1 + 1 /\
    e2 = e1 + n2 /\ m2 = Z.shiftr m1 n2 /\
    binary_round_aux prec emax s m e l =
      match m2 with
      | Z0 => S754_zero s
      | Zpos p => if e2 <=? emax - prec then S754_finite s p e2 else S754_infinity s
      | Zneg _ => S754_nan
      end.
Proof.
  intros Hm. unfold binary_round_aux.
  destruct (shr_fexp_spec m e l Hm) as [A1 A2].
  destruct (shr_fexp prec emax m e l) as [mrs' e'] eqn:E1. simpl fst in A1; simpl snd in A2.
  set (m1 := round_nearest_even (shr_m mrs') (loc_of_shr_record mrs')).
  assert (B : shr_m mrs' <= m1 <= shr_m mrs' + 1) by apply round_nearest_even_bounds.
  assert (Hm1 : 0 <= m1).
  { rewrite A1 in B. pose proof (Z.shiftr_nonneg m (Z.max 0 (fexp (digits m + e) - e))). lia. }
  destruct (shr_fexp_spec m1 e' loc_Exact Hm1) as [C1 C2].
  destruct (shr_fexp prec emax m1 e' loc_Exact) as [mrs'' e''] eqn:E2.
  simpl fst in C1; simpl snd in C2.
  exists m1, (shr_m mrs''), e', e''. cbv zeta.
  rewrite <- A1. repeat split; try assumption; try lia.
Qed.

(** Corelib states [SpecFloat] with its own copies of the operations of
    [Z]; [lia] knows those of [BinInt]. *)
Ltac norm_Z :=
  change IntDef.Z.add with Z.add in *; change IntDef.Z.sub with Z.sub in *;
  change IntDef.Z.opp with Z.opp in *; change IntDef.Z.mul with Z.mul in *;
  change IntDef.Z.max with Z.max in *; change IntDef.Z.min with Z.min in *;
  change IntDef.Z.leb with Z.leb in *; change IntDef.Z.ltb with Z.ltb in *;
  change IntDef.Z.eqb with Z.eqb in *; change IntDef.Z.compare with Z.compare in *;
  change IntDef.Z.shiftl with Z.shiftl in *; change IntDef.Z.div_eucl with Z.div_eucl in *;
  change PosDef.Pos.compare_cont with Pos.compare_cont in *;
  change PosDef.Pos.mul with Pos.mul in *; change @PosDef.Pos.iter with @Pos.iter in *.

Ltac unfold_fexp :=
  unfold SpecFloat.fexp, SpecFloat.emin, prec, emax in *; norm_Z.

(** [x] is a zero or a finite number below [2^k] in magnitude *)
Definition mag_le (x : spec_float) (k : Z) : Prop :=
  match x with
  | S754_zero _ => True
  | S754_finite _ m e => digits (Zpos m) + e <= k
  | _ => False
  end.

Lemma shiftr_pos m n : 0 < m -> 0 <= n < digits m -> 0 < Z.shiftr m n.
Proof.
  intros Hm Hn. pose proof (digits_shiftr m n ltac:(lia) ltac:(lia)) as D.
  pose proof (Z.shiftr_nonneg m n).
  destruct (Z.eq_dec (Z.shiftr m n) 0) as [E|]; [|lia].
  rewrite E in D. simpl in D. lia.
Qed.

Lemma binary_round_aux_mag s m e l K :
  0 <= m -> digits m + e <= K -> e <= K -> emin <= K -> K <= emax - prec ->
  mag_le (binary_round_aux prec emax s m e l) (K + 1).
Proof.
  intros Hm Hd He HK1 HK2.
  destruct (binary_round_aux_eq s m e l Hm) as (m1 & m2 & e1 & e2 & H).
  cbv zeta in H. destruct H as (E1 & B1 & E2 & M2 & ->).
  pose proof (Z.shiftr_nonneg m (Z.max 0 (fexp (digits m + e) - e))) as N1.
  pose proof (digits_shiftr m (Z.max 0 (fexp (digits m + e) - e)) Hm ltac:(lia)) as D1.
  assert (Hm1 : 0 <= m1) by lia.
  assert (Dm1 : digits m1 <= digits (Z.shiftr m (Z.max 0 (fexp (digits m + e) - e))) + 1).
  { etransitivity; [apply digits_le; split; [exact Hm1|apply B1]|apply digits_succ; lia]. }
  pose proof (digits_shiftr m1 (Z.max 0 (fexp (digits m1 + e1) - e1)) Hm1 ltac:(lia)) as D2.
  rewrite <- M2 in D2.
  unfold_fexp.
  assert (e2 <= K) by lia.
  destruct m2 as [|p|p]; cbn [mag_le]; auto.
  - destruct (Z.leb_spec e2 (1024 - 53)); cbn [mag_le]; [|lia]. lia.
  - pose proof (Z.shiftr_nonneg m1 (Z.max 0 (Z.max (digits m1 + e1 - 53) (3 - 1024 - 53) - e1))). lia.
Qed.

(** A positive mantissa at an exponent that is not below [emin] never
    rounds to zero. *)
Lemma binary_round_aux_pos s m e l :
  0 < m -> emin <= e ->
  (exists p e', binary_round_aux prec emax s m e l = S754_finite s p e') \/
  binary_round_aux prec emax s m e l = S754_infinity s.
Proof.
  intros Hm He.
  destruct (binary_round_aux_eq s m e l ltac:(lia)) as (m1 & m2 & e1 & e2 & H).
  cbv zeta in H. destruct H as (E1 & B1 & E2 & M2 & ->).
  assert (Dm : 1 <= digits m) by (rewrite digits_log2 by lia; pose proof (Z.log2_nonneg m); lia).
  assert (P1 : 0 < Z.shiftr m (Z.max 0 (fexp (digits m + e) - e))).
  { apply shiftr_pos; [assumption|]. unfold_fexp. lia. }
  assert (Hm1 : 0 < m1) by lia.
  assert (Dm1 : 1 <= digits m1) by (rewrite digits_log2 by lia; pose proof (Z.log2_nonneg m1); lia).
  assert (P2 : 0 < m2).
  { subst m2. apply shiftr_pos; [assumption|]. unfold_fexp. lia. }
  destruct m2 as [|p|p]; try lia.
  destruct (e2 <=? emax - prec); eauto.
Qed.

Lemma bounded_facts m e : bounded prec emax m e = true ->
  1 <= digits (Zpos m) <= prec /\ emin <= e <= emax - prec /\
  (emin < e -> digits (Zpos m) = prec).
Proof.
  unfold bounded, canonical_mantissa. intros H.
  apply andb_true_iff in H. destruct H as [H1 H2].
  apply Z.eqb_eq in H1. apply Z.leb_le in H2.
  change (Z.pos (digits2_pos m)) with (digits (Zpos m)) in H1.
  assert (1 <= digits (Zpos m)) by (simpl; lia).
  unfold_fexp. lia.
Qed.

(** ** Multiplication *)

Lemma SFmul_mag x y kx ky :
  mag_le x kx -> mag_le y ky -> emin <= kx + ky -> kx + ky <= emax - prec ->
  mag_le (SFmul prec emax x y) (kx + ky + 1).
Proof.
  destruct x as [sx|sx| |sx mx ex], y as [sy|sy| |sy my ey];
    cbn [mag_le SFmul]; auto; try tauto.
  intros Hx Hy H1 H2.
  assert (1 <= digits (Zpos mx)) by (simpl; lia).
  assert (1 <= digits (Zpos my)) by (simpl; lia).
  pose proof (digits_mul (Zpos mx) (Zpos my) ltac:(lia) ltac:(lia)) as D.
  apply binary_round_aux_mag; try lia.
  - change (Z.pos (mx * my)) with (Zpos mx * Zpos my). lia.
Qed.

Lemma SFmul_comm x y : SFmul prec emax x y = SFmul prec emax y x.
Proof.
  destruct x as [sx|sx| |sx mx ex], y as [sy|sy| |sy my ey]; simpl;
    try reflexivity; try (f_equal; apply xorb_comm).
  rewrite (xorb_comm sx sy), (Pos.mul_comm mx my), (Z.add_comm ex ey). reflexivity.
Qed.

Lemma binary_round_aux_opp s m e l : 0 <= m ->
  binary_round_aux prec emax (negb s) m e l = SFopp (binary_round_aux prec emax s m e l).
Proof.
  intros Hm. unfold binary_round_aux.
  destruct (shr_fexp prec emax m e l) as [mrs' e'].
  destruct (shr_fexp prec emax _ e' loc_Exact) as [mrs'' e''].
  destruct (shr_m mrs''); cbn [SFopp]; auto.
  destruct (e'' <=? emax - prec); reflexivity.
Qed.

Lemma SFmul_opp_l x y : SFmul prec emax (SFopp x) y = SFopp (SFmul prec emax x y).
Proof.
  destruct x as [sx|sx| |sx mx ex], y as [sy|sy| |sy my ey]; simpl;
    try reflexivity; try (f_equal; destruct sx, sy; reflexivity).
  rewrite <- binary_round_aux_opp by lia. f_equal. destruct sx, sy; reflexivity.
Qed.

(** ** Division *)

Lemma SFdiv_opp_l x y : SFdiv prec emax (SFopp x) y = SFopp (SFdiv prec emax x y).
Proof.
  destruct x as [sx|sx| |sx mx ex], y as [sy|sy| |sy my ey]; simpl;
    try reflexivity; try (f_equal; destruct sx, sy; reflexivity).
  destruct (SFdiv_core_binary prec emax (Z.pos mx) ex (Z.pos my) ey) as [[mz ez] lz] eqn:E.
  assert (0 <= mz).
  { unfold SFdiv_core_binary in E. cbv zeta in E.
    destruct (Z.div_eucl _ (Z.pos my)) as [q r] eqn:Q in E.
    injection E as <- _ _.
    match type of Q with Z.div_eucl ?a ?b = _ =>
      pose proof (Z_div_mod a b ltac:(lia)) as DM; rewrite Q in DM;
      assert (0 <= a) end.
    { destruct (ex - ey - _); try lia. apply Z.shiftl_nonneg. lia. }
    nia. }
  rewrite <- binary_round_aux_opp by assumption. f_equal. destruct sx, sy; reflexivity.
Qed.

Lemma digits_shiftl m n : 0 < m -> 0 <= n -> digits (Z.shiftl m n) = digits m + n.
Proof.
  intros Hm Hn. assert (0 < Z.shiftl m n).
  { rewrite Z.shiftl_mul_pow2 by lia. pose proof (Z.pow_pos_nonneg 2 n). nia. }
  rewrite !digits_log2 by lia. rewrite Z.log2_shiftl by lia. lia.
Qed.

Lemma digits_div a b : 0 <= a -> 0 < b -> digits (a / b) <= Z.max 0 (digits a - digits b + 1).
Proof.
  intros Ha Hb.
  assert (P : 2 ^ (digits b - 1) <= b).
  { rewrite digits_log2 by lia. replace (Z.log2 b + 1 - 1) with (Z.log2 b) by lia.
    apply Z.log2_spec; lia. }
  assert (D : 0 <= digits b - 1) by (rewrite digits_log2 by lia; pose proof (Z.log2_nonneg b); lia).
  assert (a / b <= Z.shiftr a (digits b - 1)).
  { rewrite Z.shiftr_div_pow2 by lia. apply Z.div_le_compat_l; [lia|].
    split; [apply Z.pow_pos_nonneg; lia | assumption]. }
  pose proof (Z.div_pos a b Ha Hb).
  etransitivity; [apply digits_le; split; eassumption|].
  rewrite digits_shiftr by lia. lia.
Qed.

Lemma SFdiv_mag x sy my ey kx ky K :
  mag_le x kx -> ky <= digits (Zpos my) + ey ->
  kx - ky + 1 <= K -> emin <= K -> K <= emax - prec ->
  mag_le (SFdiv prec emax x (S754_finite sy my ey)) (K + 1).
Proof.
  destruct x as [sx|sx| |sx mx ex]; cbn [mag_le SFdiv]; auto; try tauto.
  intros Hx Hy H1 H2 H3.
  unfold SFdiv_core_binary. cbv zeta.
  set (d1 := digits (Zpos mx)) in *. set (d2 := digits (Zpos my)) in *.
  set (e' := IntDef.Z.min _ _).
  set (m' := match IntDef.Z.sub (IntDef.Z.sub ex ey) e' with
             | 0 => Zpos mx | Z.pos _ => _ | Z.neg _ => 0 end).
  assert (E' : e' = Z.min (fexp (d1 + ex - (d2 + ey))) (ex - ey)) by reflexivity.
  assert (M' : m' = Z.shiftl (Zpos mx) (ex - ey - e')).
  { subst m'. norm_Z. destruct (ex - ey - e') eqn:E; try reflexivity. lia. }
  clearbody e' m'.
  destruct (IntDef.Z.div_eucl m' (Z.pos my)) as [q r] eqn:Q.
  assert (Hq : q = m' / Zpos my) by (unfold Z.div; norm_Z; rewrite Q; reflexivity).
  assert (0 < m') by (rewrite M'; rewrite Z.shiftl_mul_pow2 by lia;
                      pose proof (Z.pow_pos_nonneg 2 (ex - ey - e')); nia).
  assert (Dm' : digits m' = d1 + (ex - ey - e')) by (rewrite M'; apply digits_shiftl; lia).
  pose proof (digits_div m' (Zpos my) ltac:(lia) ltac:(lia)) as Dq.
  rewrite <- Hq in Dq. fold d2 in Dq.
  assert (0 <= q) by (rewrite Hq; apply Z.div_pos; lia).
  unfold_fexp.
  apply binary_round_aux_mag; unfold_fexp; try lia.
Qed.

(** ** Comparison *)

Lemma SFcompare_antisym x y :
  SFcompare y x = option_map CompOpp (SFcompare x y).
Proof.
  destruct x as [sx|sx| |sx mx ex], y as [sy|sy| |sy my ey]; cbn [SFcompare option_map];
    try reflexivity; try (destruct sx; reflexivity); try (destruct sy; reflexivity);
    try (destruct sx, sy; reflexivity).
  norm_Z. rewrite (Z.compare_antisym ey ex).
  assert (P : Pos.compare_cont Eq mx my = CompOpp (Pos.compare_cont Eq my mx))
    by (rewrite Pos.compare_cont_antisym; reflexivity).
  rewrite P. destruct sx, sy, (ey ?= ex), (Pos.compare_cont Eq my mx); reflexivity.
Qed.

Lemma SFcompare_none x y : SFcompare x y = None <-> x = S754_nan \/ y = S754_nan.
Proof.
  destruct x as [sx|sx| |sx mx ex], y as [sy|sy| |sy my ey]; cbn [SFcompare];
    split; intros H; auto; try discriminate; try (destruct H; discriminate).
Qed.

Lemma SFcompare_refl x : x <> S754_nan -> SFcompare x x = Some Eq.
Proof.
  destruct x as [sx|sx| |sx mx ex]; cbn [SFcompare]; intros H; try congruence.
  - destruct sx; reflexivity.
  - norm_Z. rewrite Z.compare_refl.
    change (Pos.compare_cont Eq mx mx) with (Pos.compare mx mx).
    rewrite Pos.compare_refl. destruct sx; reflexivity.
Qed.

Lemma SFleb_total x y :
  x <> S754_nan -> y <> S754_nan -> SFltb y x = false -> SFleb x y = true.
Proof.
  intros Hx Hy. unfold SFltb, SFleb. rewrite (SFcompare_antisym x y).
  destruct (SFcompare x y) as [[| |]|] eqn:E; cbn; try congruence.
  apply SFcompare_none in E. tauto.
Qed.

Lemma SFleb_not_nan x y : SFleb x y = true -> x <> S754_nan /\ y <> S754_nan.
Proof.
  unfold SFleb. intros H. split; intros ->; [|destruct x]; discriminate.
Qed.

Lemma SFltb_leb x y : SFltb x y = true -> SFleb x y = true.
Proof. unfold SFltb, SFleb. destruct (SFcompare x y) as [[| |]|]; congruence. Qed.

(** A number between [-b] and [b] is finite and no larger than [b] *)
Lemma SFleb_mag x mb eb :
  valid_binary x = true -> valid_binary (S754_finite false mb eb) = true ->
  SFleb (S754_finite true mb eb) x = true -> SFleb x (S754_finite false mb eb) = true ->
  mag_le x (digits (Zpos mb) + eb).
Proof.
  intros Vx Vb. cbn [valid_binary] in Vb. apply bounded_facts in Vb.
  destruct x as [sx|sx| |sx mx ex]; cbn [mag_le]; auto; unfold SFleb; cbn [SFcompare].
  - destruct sx; discriminate.
  - discriminate.
  - cbn [valid_binary] in Vx. apply bounded_facts in Vx. norm_Z.
    assert (C : forall c, (c = Gt -> False) ->
               match Z.compare ex eb with Lt => Lt | Gt => Gt
               | Eq => Pos.compare_cont Eq mx mb end = c ->
               digits (Zpos mx) + ex <= digits (Zpos mb) + eb).
    { intros c Hc E. destruct (Z.compare_spec ex eb) as [->|L|G].
      - change (Pos.compare_cont Eq mx mb) with (Pos.compare mx mb) in E.
        assert (Zpos mx <= Zpos mb).
        { destruct (Pos.compare_spec mx mb); subst; try lia. exfalso; auto. }
        pose proof (digits_le (Zpos mx) (Zpos mb) ltac:(lia)). lia.
      - lia.
      - exfalso; auto. }
    destruct sx.
    + intros H _. rewrite (Z.compare_antisym ex eb) in H.
      destruct (Z.compare ex eb) eqn:E; cbn [CompOpp] in H.
      * apply (C (Pos.compare_cont Eq mx mb)); [|reflexivity].
        intros G.
        assert (P : Pos.compare_cont Eq mb mx = CompOpp (Pos.compare_cont Eq mx mb))
          by (rewrite Pos.compare_cont_antisym; reflexivity).
        rewrite P, G in H. discriminate.
      * apply (C Lt); [discriminate|reflexivity].
      * discriminate.
    + intros _ H.
      apply (C (match Z.compare ex eb with Lt => Lt | Gt => Gt
                | Eq => Pos.compare_cont Eq mx mb end)); [|reflexivity].
      intros G. rewrite G in H. discriminate.
Qed.

(** ** Subtraction *)

Lemma shl_align_fst mx ex ez : ez <= ex ->
  Zpos (fst (shl_align mx ex ez)) = Zpos mx * 2 ^ (ex - ez).
Proof.
  intros H. unfold shl_align. norm_Z.
  destruct (ez - ex) as [|d|d] eqn:E; cbn [fst]; try lia.
  - replace (ex - ez) with 0 by lia. lia.
  - change (Pos.iter xO mx d) with (shift_pos d mx).
    rewrite shift_pos_correct, Z.pow_pos_fold. replace (ex - ez) with (Zpos d) by lia. lia.
Qed.

Lemma shl_align_snd mx ex ez : snd (shl_align mx ex ez) = Z.min ex ez.
Proof.
  unfold shl_align. norm_Z. destruct (ez - ex) as [|d|d] eqn:E; cbn [snd]; lia.
Qed.

Lemma binary_round_pos s m e : emin <= e ->
  (exists p e', binary_round prec emax s m e = S754_finite s p e') \/
  binary_round prec emax s m e = S754_infinity s.
Proof.
  intros He. unfold binary_round.
  pose proof (shl_align_snd m e (fexp (Z.pos (digits2_pos m) + e))) as S.
  destruct (shl_align m e _) as [mz ez]. cbn [snd] in S.
  apply binary_round_aux_pos; [lia|]. unfold_fexp. lia.
Qed.

Lemma binary_round_opp s m e :
  binary_round prec emax (negb s) m e = SFopp (binary_round prec emax s m e).
Proof.
  unfold binary_round. destruct (shl_align m e _) as [mz ez].
  apply binary_round_aux_opp. lia.
Qed.

Lemma binary_normalize_opp D e : D <> 0 ->
  binary_normalize prec emax (- D) e false = SFopp (binary_normalize prec emax D e false).
Proof.
  destruct D as [|p|p]; cbn [binary_normalize Z.opp]; intros H; try lia.
  - apply (binary_round_opp false).
  - rewrite (binary_round_opp false).
    destruct (binary_round prec emax false p e); cbn [SFopp];
      rewrite ?negb_involutive; reflexivity.
Qed.

Lemma SFltb_zero_binary_normalize D e : emin <= e ->
  SFltb (S754_zero false) (binary_normalize prec emax D e false) = (0 <? D).
Proof.
  intros He. destruct D as [|p|p]; cbn [binary_normalize]; try reflexivity.
  - destruct (binary_round_pos false p e He) as [(q & e' & ->)| ->]; reflexivity.
  - destruct (binary_round_pos true p e He) as [(q & e' & ->)| ->]; reflexivity.
Qed.

(** Two canonical mantissas compare as their exponents do. *)
Lemma canonical_lt m1 e1 m2 e2 :
  bounded prec emax m1 e1 = true -> bounded prec emax m2 e2 = true ->
  e1 < e2 -> Zpos m1 < Zpos m2 * 2 ^ (e2 - e1).
Proof.
  intros B1 B2 L. apply bounded_facts in B1, B2.
  destruct B1 as (D1 & R1 & _), B2 as (D2 & R2 & N2).
  assert (Zpos m1 < 2 ^ prec) by (apply digits_lt_pow; unfold prec in *; lia).
  assert (2 ^ (prec - 1) <= Zpos m2).
  { rewrite <- N2 by lia. rewrite digits_log2 by lia.
    replace (Z.log2 (Z.pos m2) + 1 - 1) with (Z.log2 (Zpos m2)) by lia.
    apply Z.log2_spec; lia. }
  assert (2 ^ 1 <= 2 ^ (e2 - e1)) by (apply Z.pow_le_mono_r; lia).
  change (2 ^ prec) with (2 ^ (prec - 1) * 2 ^ 1) in H. nia.
Qed.

Lemma SFsub_finite sx mx ex sy my ey :
  SFsub prec emax (S754_finite sx mx ex) (S754_finite sy my ey) =
  binary_normalize prec emax
    (cond_Zopp sx (Zpos mx * 2 ^ (ex - Z.min ex ey)) -
     cond_Zopp sy (Zpos my * 2 ^ (ey - Z.min ex ey))) (Z.min ex ey) false.
Proof.
  cbn [SFsub]. cbv zeta. norm_Z.
  rewrite !shl_align_fst by lia. reflexivity.
Qed.

Lemma SFsub_pos x y :
  valid_binary x = true -> valid_binary y = true ->
  SFltb (S754_zero false) (SFsub prec emax x y) = SFltb y x.
Proof.
  destruct x as [sx|sx| |sx mx ex], y as [sy|sy| |sy my ey]; intros Vx Vy;
    try reflexivity; try (destruct sx; reflexivity); try (destruct sy; reflexivity);
    try (destruct sx, sy; reflexivity).
  cbn [valid_binary] in Vx, Vy.
  pose proof (bounded_facts _ _ Vx) as Fx. pose proof (bounded_facts _ _ Vy) as Fy.
  rewrite SFsub_finite, SFltb_zero_binary_normalize by lia.
  unfold SFltb. cbn [SFcompare]. norm_Z.
  change (Pos.compare_cont Eq my mx) with (Pos.compare my mx).
  destruct (Z.compare_spec ey ex) as [->|L|G].
  - rewrite Z.min_id, Z.sub_diag, !Z.mul_1_r.
    destruct (Pos.compare_spec my mx) as [->|L|G]; destruct sx, sy; cbn [cond_Zopp CompOpp];
      first [apply Z.ltb_lt; lia | apply Z.ltb_ge; lia].
  - pose proof (canonical_lt _ _ _ _ Vy Vx L).
    rewrite Z.min_r, Z.sub_diag, Z.mul_1_r by lia.
    destruct sx, sy; cbn [cond_Zopp]; first [apply Z.ltb_lt; lia | apply Z.ltb_ge; lia].
  - pose proof (canonical_lt _ _ _ _ Vx Vy G).
    rewrite Z.min_l, Z.sub_diag, Z.mul_1_r by lia.
    destruct sx, sy; cbn [cond_Zopp]; first [apply Z.ltb_lt; lia | apply Z.ltb_ge; lia].
Qed.

Lemma SFsub_swap x y :
  SFsub prec emax y x = SFopp (SFsub prec emax x y) \/
  (SFsub prec emax x y = S754_zero false /\ SFsub prec emax y x = S754_zero false).
Proof.
  destruct x as [sx|sx| |sx mx ex], y as [sy|sy| |sy my ey];
    try (left; reflexivity);
    try (destruct sx, sy; cbn; auto; fail).
  rewrite !SFsub_finite. rewrite (Z.min_comm ey ex).
  set (a := cond_Zopp sx _). set (b := cond_Zopp sy _).
  destruct (Z.eq_dec (a - b) 0) as [E|N].
  - right. replace (b - a) with 0 by lia. rewrite E. auto.
  - left. replace (b - a) with (- (a - b)) by lia. apply binary_normalize_opp; assumption.
Qed.

End SF.

(** Binary64 arithmetic on primitive floats, through [Prim2SF] *)
Module F64.
Local Open Scope float_scope.

Ltac to_SF :=
  repeat first [rewrite mul_spec | rewrite add_spec | rewrite sub_spec | rewrite div_spec
               | rewrite sqrt_spec | rewrite opp_spec | rewrite abs_spec];
  unfold SF64mul, SF64add, SF64sub, SF64div, SF64sqrt.

Lemma Prim2SF_nan : Prim2SF nan = S754_nan.
Proof. reflexivity. Qed.

Lemma Prim2SF_zero : Prim2SF 0 = S754_zero false.
Proof. reflexivity. Qed.

Lemma is_nan_spec x : is_nan x = true <-> x = nan.
Proof.
  unfold is_nan. rewrite eqb_spec. unfold SFeqb. split.
  - intros H. apply Prim2SF_inj. rewrite Prim2SF_nan.
    destruct (Prim2SF x) eqn:E; try reflexivity;
      rewrite SF.SFcompare_refl in H by discriminate; discriminate.
  - intros ->. reflexivity.
Qed.

Lemma is_nan_false x : is_nan x = false <-> Prim2SF x <> S754_nan.
Proof.
  split.
  - intros H E. assert (x = nan) by (apply Prim2SF_inj; rewrite E; reflexivity).
    subst x. discriminate.
  - intros H. destruct (is_nan x) eqn:E; [|reflexivity].
    apply is_nan_spec in E. subst x. exfalso. apply H. reflexivity.
Qed.

(** *** NaN is absorbing *)

Lemma sub_nan_r x : x - nan = nan.
Proof. apply Prim2SF_inj. to_SF. rewrite Prim2SF_nan. destruct (Prim2SF x); reflexivity. Qed.
Lemma mul_nan_l x : nan * x = nan.
Proof. apply Prim2SF_inj. to_SF. reflexivity. Qed.
Lemma mul_nan_r x : x * nan = nan.
Proof. apply Prim2SF_inj. to_SF. rewrite Prim2SF_nan. destruct (Prim2SF x); reflexivity. Qed.
Lemma div_nan_l x : nan / x = nan.
Proof. apply Prim2SF_inj. to_SF. reflexivity. Qed.
Lemma add_nan_l x : nan + x = nan.
Proof. apply Prim2SF_inj. to_SF. reflexivity. Qed.
Lemma add_nan_r x : x + nan = nan.
Proof. apply Prim2SF_inj. to_SF. rewrite Prim2SF_nan. destruct (Prim2SF x); reflexivity. Qed.
Lemma leb_nan_l x : (nan <=? x) = false.
Proof. rewrite leb_spec. reflexivity. Qed.
Lemma leb_nan_r x : (x <=? nan) = false.
Proof. rewrite leb_spec, Prim2SF_nan. unfold SFleb. destruct (Prim2SF x); reflexivity. Qed.

(** *** Order *)

Lemma leb_not_nan x y : (x <=? y) = true -> is_nan x = false /\ is_nan y = false.
Proof.
  rewrite leb_spec. intros H. apply SF.SFleb_not_nan in H.
  split; apply is_nan_false; tauto.
Qed.

Lemma ltb_leb x y : (x <? y) = true -> (x <=? y) = true.
Proof. rewrite ltb_spec, leb_spec. apply SF.SFltb_leb. Qed.

Lemma leb_total x y :
  is_nan x = false -> is_nan y = false -> (y <? x) = false -> (x <=? y) = true.
Proof.
  rewrite !is_nan_false, ltb_spec, leb_spec. apply SF.SFleb_total.
Qed.

Lemma ltb_asym x y : (x <? y) = true -> (y <? x) = false.
Proof.
  rewrite !ltb_spec. unfold SFltb. rewrite (SF.SFcompare_antisym (Prim2SF x) (Prim2SF y)).
  destruct (SFcompare (Prim2SF x) (Prim2SF y)) as [[| |]|]; cbn; congruence.
Qed.

(** The sign of a difference is the order of its operands: binary64 has
    gradual underflow, so [x - y] is zero only when [x = y]. *)
Lemma sub_pos x y : (0 <? x - y) = (y <? x).
Proof.
  rewrite !ltb_spec. to_SF. rewrite Prim2SF_zero.
  apply SF.SFsub_pos; apply Prim2SF_valid.
Qed.

(** *** Signs *)

Lemma opp_involutive x : - - x = x.
Proof.
  apply Prim2SF_inj. to_SF. destruct (Prim2SF x); cbn [SFopp]; rewrite ?negb_involutive; reflexivity.
Qed.

Lemma sub_swap x y : y - x = - (x - y) \/ (x - y = 0 /\ y - x = 0).
Proof.
  destruct (SF.SFsub_swap (Prim2SF x) (Prim2SF y)) as [H|[H1 H2]].
  - left. apply Prim2SF_inj. to_SF. exact H.
  - right. split; apply Prim2SF_inj; to_SF; rewrite Prim2SF_zero; assumption.
Qed.

Lemma mul_comm x y : x * y = y * x.
Proof. apply Prim2SF_inj. to_SF. apply SF.SFmul_comm. Qed.

Lemma mul_opp_l x y : (- x) * y = - (x * y).
Proof. apply Prim2SF_inj. to_SF. apply SF.SFmul_opp_l. Qed.

Lemma mul_opp_r x y : x * (- y) = - (x * y).
Proof. rewrite (mul_comm x (- y)), mul_opp_l, (mul_comm y x). reflexivity. Qed.

Lemma mul_opp_opp x y : (- x) * (- y) = x * y.
Proof. rewrite mul_opp_l, mul_opp_r. apply opp_involutive. Qed.

Lemma div_opp_l x y : (- x) / y = - (x / y).
Proof. apply Prim2SF_inj. to_SF. apply SF.SFdiv_opp_l. Qed.

(** *** Finite numbers and their magnitude *)

(** [x] is finite and [|x| < 2^k] *)
Definition finite_below (x : float) (k : Z) : Prop := SF.mag_le (Prim2SF x) k.

Lemma finite_below_is_finite x k : finite_below x k -> is_finite x = true.
Proof.
  unfold finite_below, is_finite, is_nan, is_infinity.
  rewrite !eqb_spec, abs_spec. unfold SFeqb.
  destruct (Prim2SF x) as [s|s| |s m e] eqn:E; cbn [SF.mag_le]; try tauto; intros _;
    rewrite SF.SFcompare_refl by discriminate; reflexivity.
Qed.

Lemma between_finite b mb eb x :
  Prim2SF b = S754_finite false mb eb ->
  (- b <=? x) = true -> (x <=? b) = true ->
  finite_below x (Zdigits2 (Zpos mb) + eb).
Proof.
  intros Hb. rewrite !leb_spec, opp_spec, Hb. cbn [SFopp negb].
  apply SF.SFleb_mag; [apply Prim2SF_valid|]. rewrite <- Hb. apply Prim2SF_valid.
Qed.

Lemma mul_finite x y kx ky :
  finite_below x kx -> finite_below y ky ->
  (SF.emin <= kx + ky)%Z -> (kx + ky <= emax - prec)%Z ->
  finite_below (x * y) (kx + ky + 1).
Proof. unfold finite_below. to_SF. apply SF.SFmul_mag. Qed.

Lemma div_finite b sb mb eb x kx K :
  Prim2SF b = S754_finite sb mb eb ->
  finite_below x kx ->
  (kx - (Zdigits2 (Zpos mb) + eb) + 1 <= K)%Z -> (SF.emin <= K)%Z -> (K <= emax - prec)%Z ->
  finite_below (x / b) (K + 1).
Proof.
  unfold finite_below. to_SF. intros -> Hx. apply SF.SFdiv_mag with (kx := kx); auto. lia.
Qed.

Lemma sub_diag x k : finite_below x k -> x - x = 0.
Proof.
  unfold finite_below. intros H. apply Prim2SF_inj. to_SF. rewrite Prim2SF_zero.
  destruct (Prim2SF x) as [s|s| |s m e]; cbn [SF.mag_le] in H; try tauto.
  - destruct s; reflexivity.
  - rewrite SF.SFsub_finite, Z.sub_diag. reflexivity.
Qed.

(** *** Zeros *)

Definition zeroish (x : float) : Prop := x = 0 \/ x = -0.

Lemma zeroish_spec x : zeroish x <-> exists s, Prim2SF x = S754_zero s.
Proof.
  split.
  - intros [-> | ->]; eexists; reflexivity.
  - intros [[|] H]; [right|left]; apply Prim2SF_inj; rewrite H; reflexivity.
Qed.

Lemma finite_mul_zero x k : finite_below x k -> zeroish (x * 0).
Proof.
  unfold finite_below. intros H. apply zeroish_spec. to_SF. rewrite Prim2SF_zero.
  destruct (Prim2SF x) as [s|s| |s m e]; cbn [SF.mag_le] in H; try tauto; eexists; reflexivity.
Qed.

Lemma zeroish_mul_zero x : zeroish x -> zeroish (x * 0).
Proof. intros [-> | ->]; [left|right]; reflexivity. Qed.

Lemma zero_add_zeroish x : zeroish x -> 0 + x = 0.
Proof. intros [-> | ->]; reflexivity. Qed.

(** *** Opposites *)

Lemma is_nan_opp x : is_nan (- x) = is_nan x.
Proof.
  destruct (is_nan x) eqn:E.
  - apply is_nan_spec in E. subst x. reflexivity.
  - apply is_nan_false. apply is_nan_false in E. rewrite opp_spec.
    destruct (Prim2SF x); cbn [SFopp]; congruence.
Qed.

Lemma abs_opp x : abs (- x) = abs x.
Proof. apply Prim2SF_inj. to_SF. destruct (Prim2SF x); reflexivity. Qed.

Lemma is_infinity_opp x : is_infinity (- x) = is_infinity x.
Proof. unfold is_infinity. rewrite abs_opp. reflexivity. Qed.

Lemma is_zero_opp x : is_zero (- x) = is_zero x.
Proof.
  unfold is_zero. rewrite !eqb_spec, opp_spec. unfold SFeqb.
  destruct (Prim2SF x) as [s|s| |s m e]; try reflexivity; destruct s; reflexivity.
Qed.

(** A number that is neither NaN nor a zero is negative exactly when its
    opposite is not. *)
Lemma ltb_opp_zero x :
  is_nan x = false -> is_zero x = false -> (- x <? 0) = negb (x <? 0).
Proof.
  rewrite is_nan_false. unfold is_zero. rewrite eqb_spec, !ltb_spec, opp_spec.
  unfold SFeqb, SFltb. change (Prim2SF zero) with (S754_zero false). rewrite Prim2SF_zero.
  destruct (Prim2SF x) as [s|s| |s m e]; cbn [SFopp SFcompare]; try congruence;
    intros _ _; destruct s; reflexivity.
Qed.

Lemma ltb_not_nan x y : (x <? y) = true -> is_nan x = false /\ is_nan y = false.
Proof. intros H. apply leb_not_nan. apply ltb_leb. assumption. Qed.

Lemma zero_ltb_not_zero x : (0 <? x) = true -> is_zero x = false.
Proof.
  unfold is_zero. rewrite eqb_spec, ltb_spec. unfold SFeqb, SFltb.
  change (Prim2SF zero) with (S754_zero false). rewrite Prim2SF_zero.
  destruct (Prim2SF x) as [s|s| |s m e]; cbn [SFcompare]; try congruence;
    destruct s; congruence.
Qed.
End F64.

Local Close Scope Z_scope.

(** * The reference library meets what is asked of [Math] *)

Module RefMathFacts.
Import F64.

Lemma conforming : ES_conforming RefMath.lib.
Proof.
  constructor; cbn [Math_sin Math_cos Math_atan2 RefMath.lib]; try reflexivity.
  intros x Hx. unfold RefMath.atan2.
    destruct (ltb_not_nan _ _ Hx) as [_ N]. rewrite N.
    change (is_nan 0) with false. change (is_infinity 0) with false.
    change (is_zero 0) with true. cbn [orb].
    assert (G : get_sign x = false).
    { unfold get_sign. rewrite (zero_ltb_not_zero x Hx). apply ltb_asym; assumption. }
    rewrite G. reflexivity.
Qed.

Lemma sin_is_odd : sin_odd RefMath.lib.
Proof.
  intros x. cbn [Math_sin RefMath.lib]. unfold RefMath.sin.
  rewrite is_nan_opp, is_infinity_opp, is_zero_opp, abs_opp.
  destruct (is_nan x) eqn:N; [reflexivity|].
  destruct (is_infinity x) eqn:I; [reflexivity|]. cbn [orb].
  destruct (is_zero x) eqn:Z; [reflexivity|].
  rewrite (ltb_opp_zero x N Z).
  destruct (x <? 0); cbn [negb]; [rewrite opp_involutive|]; reflexivity.
Qed.

Lemma clamp_unit_bounds y :
  (-1 <=? RefMath.clamp_unit y) && (RefMath.clamp_unit y <=? 1) = true.
Proof.
  unfold RefMath.clamp_unit.
  destruct (y <=? 1) eqn:A; [destruct (-1 <=? y) eqn:B|].
  - rewrite A, B. reflexivity.
  - reflexivity.
  - reflexivity.
Qed.

Lemma cos_is_bounded : cos_bounded RefMath.lib.
Proof.
  intros x Hx. cbn [Math_cos RefMath.lib]. unfold RefMath.cos.
  unfold is_finite in Hx. apply negb_true_iff in Hx. rewrite Hx.
  destruct (abs x <? 0x1p-27); [reflexivity|apply clamp_unit_bounds].
Qed.
End RefMathFacts.

(** * Arrays *)

Section ArrayFacts.
Context {A : Type}.

Lemma Array_filter_In (f : A -> A * bool) (l : list A) (t' : A) :
  In t' (Array_filter f l) <-> exists t, In t l /\ f t = (t', true).
Proof.
  induction l as [|a l IH]; cbn [Array_filter In].
  - split; [tauto | intros (t & [] & _)].
  - destruct (f a) as [a' keep] eqn:E. split.
    + intros H. destruct keep.
      * destruct H as [<- | H]; [exists a; auto|].
        apply IH in H. destruct H as (t & Ht & Hf). exists t; auto.
      * apply IH in H. destruct H as (t & Ht & Hf). exists t; auto.
    + intros (t & [<- | Ht] & Hf).
      * rewrite E in Hf. injection Hf as -> ->. left; reflexivity.
      * assert (In t' (Array_filter f l)) by (apply IH; exists t; auto).
        destruct keep; [right|]; assumption.
Qed.

Lemma Array_filter_nil (f : A -> A * bool) (l : list A) :
  (forall t, snd (f t) = false) -> Array_filter f l = [].
Proof.
  intros H. induction l as [|a l IH]; cbn [Array_filter]; [reflexivity|].
  specialize (H a). destruct (f a) as [a' keep]. cbn [snd] in H. subst keep. exact IH.
Qed.

Variable comparefn : A -> A -> number.

Lemma sort_insert_perm x l : Permutation (x :: l) (sort_insert comparefn x l).
Proof.
  induction l as [|y l IH]; cbn [sort_insert]; [reflexivity|].
  destruct (js_gt (comparefn x y) 0); [|reflexivity].
  rewrite perm_swap. apply perm_skip. exact IH.
Qed.

Lemma Array_sort_perm l : Permutation l (Array_sort comparefn l).
Proof.
  induction l as [|x l IH]; cbn [Array_sort fold_right]; [reflexivity|].
  rewrite <- sort_insert_perm. apply perm_skip. exact IH.
Qed.

Lemma Array_sort_In l t : In t (Array_sort comparefn l) <-> In t l.
Proof.
  split; apply Permutation_in; [symmetry|]; apply Array_sort_perm.
Qed.
End ArrayFacts.

(** Sorting by a numeric key with [(a, b) => key(a) - key(b)] *)
Section SortByKey.
Context {A : Type}.
Variable key : A -> number.

Let comparefn (a b : A) : number := key a - key b.
Let le (a b : A) : Prop := js_le (key a) (key b) = true.
Let numeric (a : A) : Prop := is_nan (key a) = false.

Lemma sort_insert_HdRel y x l :
  le y x -> HdRel le y l -> HdRel le y (sort_insert comparefn x l).
Proof.
  intros Hyx H. destruct l as [|z l]; cbn [sort_insert].
  - constructor; assumption.
  - destruct (js_gt (comparefn x z) 0); constructor; [inversion H|]; assumption.
Qed.

Lemma sort_insert_Sorted x l :
  numeric x -> Forall numeric l -> Sorted le l -> Sorted le (sort_insert comparefn x l).
Proof.
  intros Nx Nl S. induction S as [|y l S IH Hd]; cbn [sort_insert].
  - repeat constructor.
  - apply Forall_cons_iff in Nl. destruct Nl as [Ny Nl'].
    unfold js_gt, comparefn. rewrite F64.sub_pos.
    destruct (key y <? key x) eqn:E.
    + constructor; [apply IH; assumption|].
      apply sort_insert_HdRel; [|assumption]. apply F64.ltb_leb; assumption.
    + constructor; [constructor; assumption|].
      constructor. apply F64.leb_total; assumption.
Qed.

Lemma Array_sort_Sorted l :
  Forall numeric l -> Sorted le (Array_sort comparefn l).
Proof.
  induction l as [|x l IH]; intros N; cbn [Array_sort fold_right]; [constructor|].
  apply Forall_cons_iff in N. destruct N as [Nx Nl].
  change (fold_right (sort_insert comparefn) [] l) with (Array_sort comparefn l).
  apply sort_insert_Sorted; [exact Nx| |apply IH; exact Nl].
  apply Forall_forall. intros t Ht. apply (proj1 (Array_sort_In comparefn l t)) in Ht.
  revert t Ht. apply Forall_forall. exact Nl.
Qed.
End SortByKey.

Lemma Sorted_adjacent {A : Type} (R : A -> A -> Prop) (l : list A) :
  Sorted R l ->
  forall i a b, nth_error l i = Some a -> nth_error l (S i) = Some b -> R a b.
Proof.
  induction 1 as [|x l S IH Hd]; intros i a b Ha Hb.
  - destruct i; discriminate.
  - destruct i as [|i]; cbn [nth_error] in Ha, Hb.
    + injection Ha as <-. destruct l as [|y l]; [discriminate|].
      cbn [nth_error] in Hb. injection Hb as <-. inversion Hd; assumption.
    + eapply IH; eassumption.
Qed.

(** * The handler *)

Lemma api_temples_status M req db : status (fst (api_temples M req db)) = 200%Z.
Proof. reflexivity. Qed.

Lemma api_temples_ranked M req db :
  reference_point_supplied req = true ->
  body (fst (api_temples M req db)) =
  Array_sort by_distance
    (Array_filter (within M (userLat req) (userLng req) (radiusKm req)) (selected req db)).
Proof.
  unfold reference_point_supplied, api_temples. cbn [db_all fst body res_json].
  intros ->. reflexivity.
Qed.

(** What a ranked search returns: the selected entries whose distance is
    within the radius, each with that distance attached. *)
Lemma ranked_In M req db t :
  reference_point_supplied req = true ->
  (In t (body (fst (api_temples M req db))) <->
   exists t0, In t0 (selected req db) /\
              t = set_distance t0 (distance_to M req t0) /\
              js_le (distance_to M req t0) (radiusKm req) = true).
Proof.
  intros R. rewrite (api_temples_ranked M req db R), Array_sort_In, Array_filter_In.
  unfold within, distance_to.
  split; intros (t0 & H0 & H).
  - injection H as <- H. exists t0; auto.
  - destruct H as [-> H]. exists t0. split; [assumption|]. rewrite H. reflexivity.
Qed.

Lemma ranked_numeric M req db :
  Forall (fun t => is_nan (distanceKm t) = false)
    (Array_filter (within M (userLat req) (userLng req) (radiusKm req)) (selected req db)).
Proof.
  apply Forall_forall. intros t Ht. apply Array_filter_In in Ht.
  destruct Ht as (t0 & _ & H). unfold within in H. injection H as <- H.
  apply F64.leb_not_nan in H. apply H.
Qed.

(** C1. In a search with a reference point, every entry returned carries a
    distance, and that distance is at most the radius of the request (10 when
    the request names none). *)
Theorem ranked_within_radius M req db t :
  reference_point_supplied req = true ->
  In t (body (fst (api_temples M req db))) ->
  exists d, distance t = Some d /\ js_le d (radiusKm req) = true.
Proof.
  intros R H. apply (ranked_In M req db t R) in H.
  destruct H as (t0 & _ & -> & H). exists (distance_to M req t0). auto.
Qed.

(** C2. In a search with a reference point, the entries come in
    non-decreasing order of distance: each one's distance is at most the
    next one's. *)
Theorem ranked_sorted_by_distance M req db i a b :
  reference_point_supplied req = true ->
  nth_error (body (fst (api_temples M req db))) i = Some a ->
  nth_error (body (fst (api_temples M req db))) (S i) = Some b ->
  exists da db', distance a = Some da /\ distance b = Some db' /\ js_le da db' = true.
Proof.
  intros R Ha Hb.
  assert (Da : exists d, distance a = Some d)
    by (apply nth_error_In in Ha; apply (ranked_In M req db a R) in Ha;
        destruct Ha as (t0 & _ & -> & _); eexists; reflexivity).
  assert (Db : exists d, distance b = Some d)
    by (apply nth_error_In in Hb; apply (ranked_In M req db b R) in Hb;
        destruct Hb as (t0 & _ & -> & _); eexists; reflexivity).
  destruct Da as [da Da], Db as [db' Db]. exists da, db'. repeat split; try assumption.
  rewrite (api_temples_ranked M req db R) in Ha, Hb.
  pose proof (Array_sort_Sorted distanceKm _ (ranked_numeric M req db)) as S.
  pose proof (Sorted_adjacent _ _ S i a b Ha Hb) as L. cbv beta in L.
  unfold distanceKm in L. rewrite Da, Db in L. exact L.
Qed.

(** * When an operation gives NaN *)

Module NaN.
Import F64.
Local Open Scope Z_scope.

Lemma binary_round_aux_not_nan s m e l :
  0 <= m -> binary_round_aux prec emax s m e l <> S754_nan.
Proof.
  intros Hm. destruct (SF.binary_round_aux_eq s m e l Hm) as (m1 & m2 & e1 & e2 & H).
  cbv zeta in H. destruct H as (_ & B & _ & -> & ->).
  assert (0 <= Z.shiftr m1 (Z.max 0 (fexp prec emax (SF.digits m1 + e1) - e1))).
  { apply Z.shiftr_nonneg.
    pose proof (Z.shiftr_nonneg m (Z.max 0 (fexp prec emax (SF.digits m + e) - e))). lia. }
  destruct (Z.shiftr m1 _); [discriminate | | lia].
  destruct (_ <=? _); discriminate.
Qed.

Lemma binary_round_not_nan s m e : binary_round prec emax s m e <> S754_nan.
Proof.
  unfold binary_round. destruct (shl_align m e _) as [mz ez].
  apply binary_round_aux_not_nan. lia.
Qed.

Lemma binary_normalize_not_nan m e s : binary_normalize prec emax m e s <> S754_nan.
Proof.
  unfold binary_normalize. destruct m; [discriminate | |]; apply binary_round_not_nan.
Qed.

Lemma SFsub_nan sk mk ek x :
  x <> S754_nan -> SFsub prec emax (S754_finite sk mk ek) x <> S754_nan.
Proof.
  intros Hx. destruct x as [sx|sx| |sx mx ex]; cbn [SFsub]; try congruence; try discriminate.
  apply binary_normalize_not_nan.
Qed.

Lemma SFmul_nan sk mk ek x :
  x <> S754_nan -> SFmul prec emax (S754_finite sk mk ek) x <> S754_nan.
Proof.
  intros Hx. destruct x as [sx|sx| |sx mx ex]; cbn [SFmul]; try congruence; try discriminate.
  apply binary_round_aux_not_nan. SF.norm_Z. lia.
Qed.

Lemma SFdiv_nan sx mx ex sy my ey :
  SFdiv prec emax (S754_finite sx mx ex) (S754_finite sy my ey) <> S754_nan.
Proof.
  cbn [SFdiv]. unfold SFdiv_core_binary.
  set (m' := match _ with Z0 => _ | Zpos _ => _ | Zneg _ => _ end).
  assert (Hm : 0 <= m').
  { subst m'. SF.norm_Z. destruct (_ - _ - _); try lia. apply Z.shiftl_nonneg. lia. }
  SF.norm_Z. change IntDef.Z.div_eucl with Z.div_eucl.
  pose proof (Z.div_eucl_eq m' (Z.pos my)) as Q.
  pose proof (Z.mod_pos_bound m' (Z.pos my)) as R.
  unfold Z.modulo in R. destruct (Z.div_eucl m' (Z.pos my)) as [q r].
  apply binary_round_aux_not_nan. specialize (Q ltac:(lia)). specialize (R ltac:(lia)). nia.
Qed.

Lemma SFsqrt_nan x :
  SFsqrt prec emax x = S754_nan <->
  x = S754_nan \/ SFltb x (S754_zero false) = true.
Proof.
  destruct x as [s|s| |s m e]; cbn [SFsqrt]; unfold SFltb; cbn [SFcompare].
  - split; [discriminate | intros [H|H]; discriminate].
  - destruct s; split; auto; try discriminate. intros [H|H]; discriminate.
  - split; auto.
  - destruct s.
    + split; auto.
    + split; [|intros [H|H]; discriminate].
      intros H. exfalso. revert H. unfold SFsqrt_core_binary.
      set (m' := match _ with Z0 => _ | Zpos _ => _ | Zneg _ => _ end).
      assert (Hm : 0 <= m').
      { subst m'. SF.norm_Z. destruct (_ - _); try lia. apply Z.shiftl_nonneg. lia. }
      change IntDef.Z.sqrtrem with Z.sqrtrem.
      pose proof (Z.sqrtrem_spec m' Hm) as Q.
      destruct (Z.sqrtrem m') as [q r].
      apply binary_round_aux_not_nan. nia.
Qed.

Local Close Scope Z_scope.
Local Open Scope float_scope.

Lemma is_nan_true x : is_nan x = true <-> Prim2SF x = S754_nan.
Proof.
  rewrite is_nan_spec. split; [intros ->; reflexivity|].
  intros H. apply Prim2SF_inj. rewrite H. reflexivity.
Qed.

(** The square root is NaN for NaN and below zero. *)
Lemma is_nan_sqrt x : is_nan (Math_sqrt x) = is_nan x || (x <? 0).
Proof.
  apply eq_true_iff_eq. rewrite orb_true_iff, !is_nan_true. unfold Math_sqrt.
  rewrite sqrt_spec, ltb_spec, Prim2SF_zero. apply SFsqrt_nan.
Qed.

(** A finite number that is not zero, times a number, is a number. *)
Lemma is_nan_mul k x sk mk ek :
  Prim2SF k = S754_finite sk mk ek -> is_nan (k * x) = is_nan x.
Proof.
  intros K. destruct (is_nan x) eqn:N.
  - apply is_nan_spec in N. subst x. rewrite mul_nan_r. reflexivity.
  - apply is_nan_false. apply is_nan_false in N. rewrite mul_spec, K.
    apply SFmul_nan. exact N.
Qed.

Lemma is_nan_sub k x sk mk ek :
  Prim2SF k = S754_finite sk mk ek -> is_nan (k - x) = is_nan x.
Proof.
  intros K. destruct (is_nan x) eqn:N.
  - apply is_nan_spec in N. subst x. rewrite sub_nan_r. reflexivity.
  - apply is_nan_false. apply is_nan_false in N. rewrite sub_spec, K.
    apply SFsub_nan. exact N.
Qed.

Lemma opp_ltb_zero x : (- x <? 0) = (0 <? x).
Proof.
  rewrite !ltb_spec, opp_spec, Prim2SF_zero. unfold SFltb.
  destruct (Prim2SF x) as [s|s| |s m e]; cbn [SFopp SFcompare]; try reflexivity;
    destruct s; reflexivity.
Qed.

(** A difference is negative exactly when its first operand is the
    smaller. *)
Lemma sub_neg x y : (x - y <? 0) = (x <? y).
Proof.
  rewrite <- (sub_pos y x).
  destruct (sub_swap y x) as [E | [E1 E2]].
  - rewrite E. apply opp_ltb_zero.
  - rewrite E1, E2. reflexivity.
Qed.

Lemma ltb_negb_leb x y :
  is_nan x = false -> is_nan y = false -> (x <? y) = negb (y <=? x).
Proof.
  rewrite !is_nan_false, ltb_spec, leb_spec. unfold SFltb, SFleb. intros Hx Hy.
  rewrite (SF.SFcompare_antisym (Prim2SF x) (Prim2SF y)).
  destruct (SFcompare (Prim2SF x) (Prim2SF y)) as [[| |]|] eqn:C; try reflexivity.
  apply SF.SFcompare_none in C. tauto.
Qed.

(** A number lies outside [[lo, hi]] when it is NaN, below [lo] or above
    [hi], and in no other case. *)
Lemma outside lo hi x :
  is_nan lo = false -> is_nan hi = false ->
  is_nan x || (x <? lo) || (hi <? x) = negb ((lo <=? x) && (x <=? hi)).
Proof.
  intros Hl Hh. destruct (is_nan x) eqn:N.
  - apply is_nan_spec in N. subst x. rewrite leb_nan_r. reflexivity.
  - rewrite (ltb_negb_leb x lo N Hl), (ltb_negb_leb hi x Hh N), negb_andb.
    reflexivity.
Qed.
End NaN.

(** The reference library has it. *)
Module RefMathNaN.
Import F64.

Lemma float_of_fix_not_nan v : is_nan (RefMath.float_of_fix v) = false.
Proof.
  unfold RefMath.float_of_fix.
  pose proof (NaN.binary_normalize_not_nan v (- RefMath.FRAC) false) as H.
  destruct (binary_normalize prec emax v (- RefMath.FRAC) false) as [s|s| |s m e];
    [destruct s; reflexivity | destruct s; reflexivity | congruence |].
  clear H. unfold SF2Prim.
  assert (L : is_nan (FloatOps.Z.ldexp (of_uint63 (Uint63.of_Z (Z.pos m))) e) = false).
  { apply is_nan_false. rewrite FloatLemmas.Z_ldexp_spec, of_uint63_spec.
    pose proof (NaN.binary_normalize_not_nan
                  (Uint63.to_Z (Uint63.of_Z (Z.pos m))) 0 false) as H.
    destruct (binary_normalize prec emax _ 0 false); cbn [SFldexp]; try congruence.
    apply NaN.binary_round_not_nan. }
  destruct s; [rewrite is_nan_opp|]; exact L.
Qed.

Lemma with_sign_of_not_nan y v :
  is_nan v = false -> is_nan (RefMath.with_sign_of y v) = false.
Proof.
  intros H. unfold RefMath.with_sign_of. destruct (get_sign y); [rewrite is_nan_opp|]; exact H.
Qed.

Lemma finite_shape x :
  is_nan x = false -> is_infinity x = false -> is_zero x = false ->
  exists s m e, Prim2SF x = S754_finite s m e.
Proof.
  intros N I Z. apply is_nan_false in N.
  unfold is_infinity in I. unfold is_zero in Z.
  rewrite eqb_spec, abs_spec in I. rewrite eqb_spec in Z.
  change (Prim2SF infinity) with (S754_infinity false) in I.
  change (Prim2SF zero) with (S754_zero false) in Z.
  destruct (Prim2SF x) as [s|s| |s m e]; try congruence.
  - destruct s; discriminate.
  - discriminate.
  - eauto.
Qed.

Lemma atan2_is_NaN_only : atan2_NaN_only RefMath.lib.
Proof.
  intros y x. cbn [Math_atan2 RefMath.lib]. unfold RefMath.atan2.
  destruct (is_nan y || is_nan x) eqn:N; [reflexivity|].
  apply orb_false_iff in N. destruct N as [Ny Nx].
  destruct (is_infinity y) eqn:Iy.
  { apply with_sign_of_not_nan.
    destruct (is_infinity x); [destruct (get_sign x)|]; apply float_of_fix_not_nan. }
  destruct (is_zero y) eqn:Zy.
  { apply with_sign_of_not_nan.
    destruct (get_sign x); [apply float_of_fix_not_nan | reflexivity]. }
  destruct (is_infinity x) eqn:Ix.
  { apply with_sign_of_not_nan.
    destruct (get_sign x); [apply float_of_fix_not_nan | reflexivity]. }
  destruct (is_zero x) eqn:Zx.
  { apply with_sign_of_not_nan, float_of_fix_not_nan. }
  destruct (0 <? x).
  - destruct (abs y <? abs x * 0x1p-64).
    + destruct (finite_shape y Ny Iy Zy) as (sy & my & ey & Ey).
      destruct (finite_shape x Nx Ix Zx) as (sx & mx & ex & Ex).
      apply is_nan_false. rewrite div_spec, Ey, Ex. apply NaN.SFdiv_nan.
    + apply with_sign_of_not_nan, float_of_fix_not_nan.
  - apply with_sign_of_not_nan, float_of_fix_not_nan.
Qed.
End RefMathNaN.

(** * The distance function *)

(** C3, as the claim states it, fails: between the valid coordinates
    [(8, 0)] and [(-8, 180)], antipodes of each other, rounding takes [a]
    above 1, and the function returns NaN, which is no distance. *)
Lemma antipodes_distance_nan :
  valid_coordinate 8 0 = true /\ valid_coordinate (-8) 180 = true /\
  (1 <? haversine_a RefMath.lib 8 0 (-8) 180) = true /\
  is_nan (getDistance RefMath.lib 8 0 (-8) 180) = true.
Proof. repeat split; vm_compute; reflexivity. Qed.

(** C3, as the code has it. [getDistance] is the haversine formula of the
    specification evaluated in binary64, products taken from left to right:
    [6371 * c] with [c = 2 * atan2 (sqrt a, sqrt (1 - a))] and [a] the sum
    of [sin^2 (dLat / 2)] and [cos lat1 * cos lat2 * sin^2 (dLon / 2)],
    latitudes and differences in radians.  The result is a Number exactly
    when the [a] so computed lies in [[0, 1]]; it is NaN when rounding takes
    [a] above 1. *)
Theorem getDistance_is_haversine M lat1 lon1 lat2 lon2 :
  atan2_NaN_only M ->
  let a := haversine_a M lat1 lon1 lat2 lon2 in
  getDistance M lat1 lon1 lat2 lon2 =
    6371 * (2 * Math_atan2 M (Math_sqrt a) (Math_sqrt (1 - a))) /\
  is_nan (getDistance M lat1 lon1 lat2 lon2) = negb (js_le 0 a && js_le a 1).
Proof.
  intros A a.
  assert (E : getDistance M lat1 lon1 lat2 lon2 =
              6371 * (2 * Math_atan2 M (Math_sqrt a) (Math_sqrt (1 - a))))
    by reflexivity.
  split; [exact E|]. rewrite E.
  rewrite (NaN.is_nan_mul 6371 _ _ _ _ eq_refl).
  rewrite (NaN.is_nan_mul 2 _ _ _ _ eq_refl).
  rewrite A, !NaN.is_nan_sqrt.
  rewrite (NaN.is_nan_sub 1 a _ _ _ eq_refl).
  rewrite NaN.sub_neg. unfold js_le.
  rewrite <- (NaN.outside 0 1 a eq_refl eq_refl).
  destruct (is_nan a), (a <? 0), (1 <? a); reflexivity.
Qed.

Lemma getDistance_is_haversine_witness :
  getDistance RefMath.lib 18.5204 73.8567 18.5164 73.8560 =
    6371 * (2 * RefMath.atan2
                  (Math_sqrt (haversine_a RefMath.lib 18.5204 73.8567 18.5164 73.8560))
                  (Math_sqrt (1 - haversine_a RefMath.lib 18.5204 73.8567 18.5164 73.8560))) /\
  is_nan (getDistance RefMath.lib 18.5204 73.8567 18.5164 73.8560) =
    negb (js_le 0 (haversine_a RefMath.lib 18.5204 73.8567 18.5164 73.8560) &&
          js_le (haversine_a RefMath.lib 18.5204 73.8567 18.5164 73.8560) 1).
Proof.
  exact (getDistance_is_haversine RefMath.lib 18.5204 73.8567 18.5164 73.8560
           RefMathNaN.atan2_is_NaN_only).
Defined.

(** The sine of half an angle difference, up to sign, does not depend on the
    order of the two angles. *)
Lemma half_sine_swap M (u v : number) :
  sin_odd M ->
  let s := Math_sin M ((v - u) * Math_PI / 180 / 2) in
  let s' := Math_sin M ((u - v) * Math_PI / 180 / 2) in
  s' = s \/ s' = - s.
Proof.
  intros Odd s s'. subst s s'.
  destruct (F64.sub_swap v u) as [E | [E1 E2]].
  - right. rewrite E, F64.mul_opp_l, !F64.div_opp_l. apply Odd.
  - left. rewrite E1, E2. reflexivity.
Qed.

Lemma square_swap (s s' : number) : s' = s \/ s' = - s -> s' * s' = s * s.
Proof. intros [-> | ->]; [reflexivity | apply F64.mul_opp_opp]. Qed.

Lemma scaled_square_swap (c s s' : number) :
  s' = s \/ s' = - s -> c * s' * s' = c * s * s.
Proof.
  intros [-> | ->]; [reflexivity|].
  rewrite (F64.mul_opp_r c s), F64.mul_opp_opp. reflexivity.
Qed.

Lemma getDistance_swap M lat1 lon1 lat2 lon2 :
  sin_odd M ->
  getDistance M lat1 lon1 lat2 lon2 = getDistance M lat2 lon2 lat1 lon1.
Proof.
  intros Odd. unfold getDistance. cbv zeta.
  rewrite (square_swap _ _ (half_sine_swap M lat1 lat2 Odd)).
  rewrite (F64.mul_comm (Math_cos M (lat2 * Math_PI / 180))).
  rewrite (scaled_square_swap _ _ _ (half_sine_swap M lon1 lon2 Odd)).
  reflexivity.
Qed.

(** C7. The distance does not depend on the order of the two coordinates,
    given that [Math.sin] is an odd function: the two calls return the same
    Number, and [==] holds between them unless that Number is NaN. *)
Theorem getDistance_symmetric M lat1 lon1 lat2 lon2 :
  sin_odd M ->
  getDistance M lat1 lon1 lat2 lon2 = getDistance M lat2 lon2 lat1 lon1 /\
  (is_nan (getDistance M lat1 lon1 lat2 lon2) = false ->
   (getDistance M lat1 lon1 lat2 lon2 =? getDistance M lat2 lon2 lat1 lon1) = true).
Proof.
  intros Odd. rewrite <- (getDistance_swap M lat1 lon1 lat2 lon2 Odd).
  split; [reflexivity|]. unfold is_nan. apply negb_false_iff.
Qed.

(** ** NaN in, NaN out *)

Lemma getDistance_nan_lat M lon1 lat2 lon2 :
  ES_conforming M -> getDistance M nan lon1 lat2 lon2 = nan.
Proof.
  intros ES. unfold getDistance. cbv zeta.
  rewrite F64.sub_nan_r, F64.mul_nan_l, !F64.div_nan_l, (sin_NaN M ES).
  rewrite F64.mul_nan_l, F64.add_nan_l.
  change (Math_sqrt nan) with nan. rewrite (atan2_NaN M ES).
  reflexivity.
Qed.

Lemma getDistance_nan_lng M lat1 lat2 lon2 :
  ES_conforming M -> getDistance M lat1 nan lat2 lon2 = nan.
Proof.
  intros ES. unfold getDistance. cbv zeta.
  rewrite F64.sub_nan_r, F64.mul_nan_l, !F64.div_nan_l, (sin_NaN M ES).
  rewrite !F64.mul_nan_r, F64.add_nan_r.
  change (Math_sqrt nan) with nan. rewrite (atan2_NaN M ES).
  reflexivity.
Qed.

(** ** The distance of a coordinate to itself *)

Lemma finite_below_PI : F64.finite_below Math_PI 2.
Proof. unfold F64.finite_below. vm_compute. discriminate. Qed.

Lemma latitude_finite lat :
  js_le (-90) lat = true -> js_le lat 90 = true -> F64.finite_below lat 7.
Proof.
  intros L U. exact (F64.between_finite 90 _ _ lat eq_refl L U).
Qed.

Lemma longitude_finite lng :
  js_le (-180) lng = true -> js_le lng 180 = true -> F64.finite_below lng 8.
Proof.
  intros L U. exact (F64.between_finite 180 _ _ lng eq_refl L U).
Qed.

(** Degrees to radians keeps a latitude finite *)
Lemma radians_finite lat :
  F64.finite_below lat 7 -> is_finite (lat * Math_PI / 180) = true.
Proof.
  intros H. apply (F64.finite_below_is_finite _ 4).
  pose proof (F64.mul_finite lat Math_PI 7 2 H finite_below_PI) as P.
  refine (F64.div_finite 180 _ _ _ (lat * Math_PI) 10 3 eq_refl (P _ _) _ _ _);
    vm_compute; discriminate.
Qed.

Lemma cosine_term_zero M lat :
  cos_bounded M -> F64.finite_below lat 7 ->
  let c := Math_cos M (lat * Math_PI / 180) in
  0 * 0 + c * c * 0 * 0 = 0.
Proof.
  intros CB H c. change (0 * 0) with 0.
  pose proof (CB _ (radians_finite lat H)) as B. fold c in B.
  apply andb_true_iff in B. destruct B as [L U].
  assert (F : F64.finite_below c 1)
    by exact (F64.between_finite 1 _ _ c eq_refl L U).
  apply F64.zero_add_zeroish, F64.zeroish_mul_zero.
  apply (F64.finite_mul_zero _ 3).
  apply (F64.mul_finite c c 1 1 F F); vm_compute; discriminate.
Qed.

(** C6, as the code has it. The distance of a valid coordinate to itself is
    zero, given a [Math] library that conforms to ECMA-262 and whose cosine
    stays in [[-1, 1]].  (The converse is not claimed.) *)
Theorem getDistance_self_zero M lat lng :
  ES_conforming M -> cos_bounded M ->
  valid_coordinate lat lng = true ->
  getDistance M lat lng lat lng = 0.
Proof.
  intros ES CB V. unfold valid_coordinate in V.
  repeat (apply andb_true_iff in V; destruct V as [V ?]).
  pose proof (latitude_finite lat ltac:(assumption) ltac:(assumption)) as Flat.
  pose proof (longitude_finite lng ltac:(assumption) ltac:(assumption)) as Flng.
  unfold getDistance. cbv zeta.
  rewrite (F64.sub_diag lat 7 Flat), (F64.sub_diag lng 8 Flng).
  change (0 * Math_PI / 180 / 2) with 0. rewrite (sin_zero M ES).
  rewrite (cosine_term_zero M lat CB Flat).
  change (Math_sqrt 0) with 0. change (Math_sqrt (1 - 0)) with 1.
  rewrite (atan2_zero_pos M ES 1) by reflexivity. reflexivity.
Qed.

(** Two coordinates one ulp apart at the equator: the difference of the
    latitudes vanishes when it is converted to radians. *)
Lemma getDistance_underflow M :
  ES_conforming M -> getDistance M 0 0 0x1p-1074 0 = 0.
Proof.
  intros ES. unfold getDistance. cbv zeta.
  change ((0x1p-1074 - 0) * Math_PI / 180 / 2) with 0.
  change ((0 - 0) * Math_PI / 180 / 2) with 0.
  change (0 * Math_PI / 180) with 0. change (0x1p-1074 * Math_PI / 180) with 0.
  rewrite (sin_zero M ES), (cos_zero M ES).
  change (Math_sqrt (0 * 0 + 1 * 1 * 0 * 0)) with 0.
  change (Math_sqrt (1 - (0 * 0 + 1 * 1 * 0 * 0))) with 1.
  rewrite (atan2_zero_pos M ES 1) by reflexivity. reflexivity.
Qed.

(** C6, as the claim states it, fails: the distinct valid coordinates
    [(0, 0)] and [(2^-1074, 0)] are at distance zero. *)
Lemma distinct_coordinates_at_distance_zero :
  valid_coordinate 0 0 = true /\ valid_coordinate 0x1p-1074 0 = true /\
  (0 =? 0x1p-1074) = false /\
  getDistance RefMath.lib 0 0 0x1p-1074 0 = 0.
Proof. repeat split; vm_compute; reflexivity. Qed.

(** * Requests used as examples *)

Local Open Scope string_scope.

(** A visitor in Pune, no radius given *)
Definition near_pune : Query.t :=
  {| Query.city := None; Query.type := None;
     Query.lat := Some "18.5204"; Query.lng := Some "73.8567";
     Query.radius := None |}.

(** The visitor's position, not a number *)
Definition not_a_latitude : Query.t :=
  {| Query.city := None; Query.type := None;
     Query.lat := Some "north"; Query.lng := Some "73.8567";
     Query.radius := None |}.

(** A latitude beyond the pole, and a radius that reaches Pune from there *)
Definition beyond_the_pole : Query.t :=
  {| Query.city := None; Query.type := None;
     Query.lat := Some "91"; Query.lng := Some "73.8567";
     Query.radius := Some "10000" |}.

(** A visitor where the equator meets the prime meridian *)
Definition at_origin : Query.t :=
  {| Query.city := None; Query.type := None;
     Query.lat := Some "0"; Query.lng := Some "0";
     Query.radius := None |}.

(** A search by city alone *)
Definition in_pune : Query.t :=
  {| Query.city := Some "pune"; Query.type := None;
     Query.lat := None; Query.lng := None;
     Query.radius := None |}.

(** A temple whose coordinates were never filled in *)
Definition unlocated : Temple.row :=
  {| Temple.id := 6;
     Temple.name := "Shrine";
     Temple.type := "Other";
     Temple.address := None;
     Temple.city := None;
     Temple.lat := None;
     Temple.lng := None;
     Temple.opening_hours := None;
     Temple.ritual_timings := None;
     Temple.festivals := None;
     Temple.accessibility := None;
     Temple.contact := None;
     Temple.description := None;
     Temple.image_url := None |}.

Definition with_unlocated : database :=
  {| temples_table := sampleTemples ++ [unlocated] |}.

Local Close Scope string_scope.

(** * The search *)

Lemma ranked_within_radius_witness :
  exists d,
    distance (hd {| row := unlocated; distance := None |}
                 (body (fst (api_temples RefMath.lib near_pune seeded)))) = Some d /\
    js_le d (radiusKm near_pune) = true.
Proof.
  apply (ranked_within_radius RefMath.lib near_pune seeded).
  - reflexivity.
  - vm_compute. left. reflexivity.
Defined.

Lemma ranked_sorted_by_distance_witness :
  exists da db',
    distance (nth 0 (body (fst (api_temples RefMath.lib near_pune seeded)))
                {| row := unlocated; distance := None |}) = Some da /\
    distance (nth 1 (body (fst (api_temples RefMath.lib near_pune seeded)))
                {| row := unlocated; distance := None |}) = Some db' /\
    js_le da db' = true.
Proof.
  apply (ranked_sorted_by_distance RefMath.lib near_pune seeded 0).
  - reflexivity.
  - vm_compute. reflexivity.
  - vm_compute. reflexivity.
Defined.

Lemma getDistance_symmetric_witness :
  getDistance RefMath.lib 18.5204 73.8567 18.5164 73.8560 =
  getDistance RefMath.lib 18.5164 73.8560 18.5204 73.8567 /\
  (getDistance RefMath.lib 18.5204 73.8567 18.5164 73.8560 =?
   getDistance RefMath.lib 18.5164 73.8560 18.5204 73.8567) = true.
Proof.
  destruct (getDistance_symmetric RefMath.lib 18.5204 73.8567 18.5164 73.8560
              RefMathFacts.sin_is_odd) as [E Q].
  split; [exact E | apply Q; vm_compute; reflexivity].
Defined.

Lemma getDistance_self_zero_witness :
  getDistance RefMath.lib 18.5204 73.8567 18.5204 73.8567 = 0.
Proof.
  apply (getDistance_self_zero RefMath.lib).
  - exact RefMathFacts.conforming.
  - exact RefMathFacts.cos_is_bounded.
  - reflexivity.
Defined.

(** ** Entries without coordinates *)

(** C4, as the claim states it, fails: an entry whose [lat] and [lng] are
    NULL is returned to a visitor at [(0, 0)], at distance [0]. *)
Lemma unlocated_entry_returned :
  reference_point_supplied at_origin = true /\
  fst (api_temples RefMath.lib at_origin with_unlocated) =
  {| status := 200;
     body := [ {| row := unlocated; distance := Some 0 |} ] |}.
Proof. split; vm_compute; reflexivity. Qed.

(** The same with any library that conforms to ECMA-262 *)
Lemma unlocated_entry_distance M :
  ES_conforming M ->
  distance_to M at_origin {| row := unlocated; distance := None |} = 0.
Proof.
  intros ES. unfold distance_to.
  change (userLat at_origin) with 0. change (userLng at_origin) with 0.
  cbn [ToNumber row Temple.lat Temple.lng unlocated].
  unfold getDistance. cbv zeta.
  change ((0 - 0) * Math_PI / 180 / 2) with 0. change (0 * Math_PI / 180) with 0.
  rewrite (sin_zero M ES), (cos_zero M ES).
  change (Math_sqrt (0 * 0 + 1 * 1 * 0 * 0)) with 0.
  change (Math_sqrt (1 - (0 * 0 + 1 * 1 * 0 * 0))) with 1.
  rewrite (atan2_zero_pos M ES 1) by reflexivity. reflexivity.
Qed.

(** C4, as the code has it. A search with a reference point raises no error
    (status 200) and returns exactly the selected entries whose distance is
    at most the radius, each with its distance attached; the distance of an
    entry is computed with [0] in the place of a NULL [lat] or [lng], so such
    an entry is kept or dropped by the same test as any other. *)
Theorem ranked_result_membership M req db t :
  reference_point_supplied req = true ->
  status (fst (api_temples M req db)) = 200%Z /\
  (In t (body (fst (api_temples M req db))) <->
   exists t0, In t0 (selected req db) /\
     t = {| row := row t0;
            distance := Some (getDistance M (userLat req) (userLng req)
                                (ToNumber (Temple.lat (row t0)))
                                (ToNumber (Temple.lng (row t0)))) |} /\
     js_le (getDistance M (userLat req) (userLng req)
              (ToNumber (Temple.lat (row t0)))
              (ToNumber (Temple.lng (row t0)))) (radiusKm req) = true).
Proof.
  intros R. split; [reflexivity|]. exact (ranked_In M req db t R).
Qed.

Lemma ranked_result_membership_witness :
  status (fst (api_temples RefMath.lib at_origin with_unlocated)) = 200%Z /\
  (In {| row := unlocated; distance := Some 0 |}
      (body (fst (api_temples RefMath.lib at_origin with_unlocated))) <->
   exists t0, In t0 (selected at_origin with_unlocated) /\
     {| row := unlocated; distance := Some 0 |} =
     {| row := row t0;
        distance := Some (getDistance RefMath.lib (userLat at_origin) (userLng at_origin)
                            (ToNumber (Temple.lat (row t0)))
                            (ToNumber (Temple.lng (row t0)))) |} /\
     js_le (getDistance RefMath.lib (userLat at_origin) (userLng at_origin)
              (ToNumber (Temple.lat (row t0)))
              (ToNumber (Temple.lng (row t0)))) (radiusKm at_origin) = true).
Proof.
  apply (ranked_result_membership RefMath.lib at_origin with_unlocated). reflexivity.
Defined.

(** ** Reference points out of range *)

(** C5, as the claim states it, fails: latitude 91 is not rejected; the five
    temples are ranked by their distance to it, the latitude taken as it is. *)
Lemma latitude_91_is_ranked :
  valid_coordinate (userLat beyond_the_pole) (userLng beyond_the_pole) = false /\
  userLat beyond_the_pole = 91 /\
  status (fst (api_temples RefMath.lib beyond_the_pole seeded)) = 200%Z /\
  map (fun t => (Temple.id (row t), distance t))
      (body (fst (api_temples RefMath.lib beyond_the_pole seeded))) =
  [ (2%Z, Some (getDistance RefMath.lib 91 73.8567 18.5392 73.8273));
    (3%Z, Some (getDistance RefMath.lib 91 73.8567 18.5375 73.8885));
    (1%Z, Some (getDistance RefMath.lib 91 73.8567 18.5164 73.8560));
    (5%Z, Some (getDistance RefMath.lib 91 73.8567 18.5126 73.8787));
    (4%Z, Some (getDistance RefMath.lib 91 73.8567 18.4529 73.8554)) ].
Proof. repeat split; vm_compute; reflexivity. Qed.

(** C5, as the code has it. A reference point out of range is not rejected:
    the response has status 200 and its body is the ranking computed with the
    latitude and longitude as [parseFloat] read them, neither validated nor
    clamped. *)
Theorem out_of_range_reference_point M req db :
  reference_point_supplied req = true ->
  valid_coordinate (userLat req) (userLng req) = false ->
  status (fst (api_temples M req db)) = 200%Z /\
  body (fst (api_temples M req db)) =
  Array_sort by_distance
    (Array_filter
       (fun t =>
          let d := getDistance M (userLat req) (userLng req)
                     (ToNumber (Temple.lat (row t))) (ToNumber (Temple.lng (row t))) in
          (set_distance t d, js_le d (radiusKm req)))
       (selected req db)).
Proof.
  intros R _. split; [reflexivity|]. exact (api_temples_ranked M req db R).
Qed.

Lemma out_of_range_reference_point_witness :
  status (fst (api_temples RefMath.lib beyond_the_pole seeded)) = 200%Z /\
  body (fst (api_temples RefMath.lib beyond_the_pole seeded)) =
  Array_sort by_distance
    (Array_filter
       (fun t =>
          let d := getDistance RefMath.lib (userLat beyond_the_pole) (userLng beyond_the_pole)
                     (ToNumber (Temple.lat (row t))) (ToNumber (Temple.lng (row t))) in
          (set_distance t d, js_le d (radiusKm beyond_the_pole)))
       (selected beyond_the_pole seeded)).
Proof.
  apply (out_of_range_reference_point RefMath.lib beyond_the_pole seeded); reflexivity.
Defined.

(** ** The radius *)

(** C8. A request that names no radius is answered as the same request with
    [radius=10]; and a request without a reference point is answered the
    same whatever its radius, named or not. *)
Theorem radius_default_and_irrelevance M req db :
  api_temples M (with_radius req None) db =
  api_temples M (with_radius req (Some "10"%string)) db
  /\
  (reference_point_supplied req = false ->
   forall r1 r2,
     api_temples M (with_radius req r1) db = api_temples M (with_radius req r2) db).
Proof.
  split; [reflexivity|].
  unfold reference_point_supplied. intros H r1 r2.
  unfold api_temples. cbn [with_radius Query.lat Query.lng Query.radius].
  rewrite H. reflexivity.
Qed.

Lemma radius_default_and_irrelevance_witness :
  api_temples RefMath.lib (with_radius in_pune None) seeded =
  api_temples RefMath.lib (with_radius in_pune (Some "10"%string)) seeded
  /\
  forall r1 r2,
    api_temples RefMath.lib (with_radius in_pune r1) seeded =
    api_temples RefMath.lib (with_radius in_pune r2) seeded.
Proof.
  destruct (radius_default_and_irrelevance RefMath.lib in_pune seeded) as [D I].
  split; [exact D | apply I; reflexivity].
Defined.

(** ** Parameters that are not numbers *)

Lemma within_nan_lat M lng r t : ES_conforming M -> snd (within M nan lng r t) = false.
Proof.
  intros ES. unfold within. cbn [snd]. rewrite (getDistance_nan_lat M _ _ _ ES).
  apply F64.leb_nan_l.
Qed.

Lemma within_nan_lng M lat r t : ES_conforming M -> snd (within M lat nan r t) = false.
Proof.
  intros ES. unfold within. cbn [snd]. rewrite (getDistance_nan_lng M _ _ _ ES).
  apply F64.leb_nan_l.
Qed.

Lemma within_nan_radius M lat lng t : snd (within M lat lng nan t) = false.
Proof. unfold within. cbn [snd]. apply F64.leb_nan_r. Qed.

(** C10. In a search with a reference point, when the latitude, the
    longitude or the radius parses to NaN the response is an empty list with
    status 200: no error, and no fall back to the radius 10.  ([Math.sin] and
    [Math.atan2] return NaN for NaN, as ECMA-262 has it.) *)
Theorem nan_parameter_gives_empty_result M req db :
  ES_conforming M ->
  reference_point_supplied req = true ->
  is_nan (userLat req) || is_nan (userLng req) || is_nan (radiusKm req) = true ->
  fst (api_temples M req db) = {| status := 200; body := [] |}.
Proof.
  intros ES R N.
  assert (B : body (fst (api_temples M req db)) = []).
  { rewrite (api_temples_ranked M req db R).
    rewrite Array_filter_nil; [reflexivity|]. intros t.
    apply orb_true_iff in N. destruct N as [N | N];
      [apply orb_true_iff in N; destruct N as [N | N]|];
      apply F64.is_nan_spec in N; rewrite N.
    - apply within_nan_lat; assumption.
    - apply within_nan_lng; assumption.
    - apply within_nan_radius. }
  destruct (fst (api_temples M req db)) as [s b] eqn:E.
  pose proof (api_temples_status M req db) as S. rewrite E in S.
  cbn [status body] in *. subst. reflexivity.
Qed.

Lemma nan_parameter_gives_empty_result_witness :
  fst (api_temples RefMath.lib not_a_latitude seeded) = {| status := 200; body := [] |}.
Proof.
  apply (nan_parameter_gives_empty_result RefMath.lib not_a_latitude seeded).
  - exact RefMathFacts.conforming.
  - reflexivity.
  - reflexivity.
Defined.

(** * More binary64: the order of Numbers *)

Module F64Order.
Local Open Scope Z_scope.

(** Where a number that is not NaN stands: below, at or above zero, then by
    exponent and mantissa. *)
Definition key (x : spec_float) : Z * Z * Z :=
  match x with
  | S754_nan => (0, 0, 0)
  | S754_zero _ => (0, 0, 0)
  | S754_infinity s => (if s then -2 else 2, 0, 0)
  | S754_finite s m e => if s then (-1, - e, - Zpos m) else (1, e, Zpos m)
  end.

Definition lex (a b : Z * Z * Z) : comparison :=
  let '(a1, a2, a3) := a in
  let '(b1, b2, b3) := b in
  match a1 ?= b1 with
  | Eq => match a2 ?= b2 with Eq => a3 ?= b3 | c => c end
  | c => c
  end.

Lemma SFcompare_lex x y :
  x <> S754_nan -> y <> S754_nan -> SFcompare x y = Some (lex (key x) (key y)).
Proof.
  destruct x as [sx|sx| |sx mx ex], y as [sy|sy| |sy my ey]; intros Hx Hy;
    try congruence; cbn [SFcompare key];
    try (destruct sx; reflexivity); try (destruct sy; reflexivity);
    try (destruct sx, sy; reflexivity).
  SF.norm_Z. change (Pos.compare_cont Eq mx my) with (Pos.compare mx my).
  destruct sx, sy; cbn [lex]; try reflexivity.
  rewrite Z.compare_opp, (Z.compare_antisym ex ey).
  change (- Z.pos mx ?= - Z.pos my) with (CompOpp (Pos.compare mx my)).
  change (-1 ?= -1) with Eq. cbv iota.
  destruct (ex ?= ey); reflexivity.
Qed.

Definition lex_le (a b : Z * Z * Z) : Prop :=
  let '(a1, a2, a3) := a in
  let '(b1, b2, b3) := b in
  a1 < b1 \/ (a1 = b1 /\ (a2 < b2 \/ (a2 = b2 /\ a3 <= b3))).

Lemma lex_le_spec a b : lex a b <> Gt <-> lex_le a b.
Proof.
  destruct a as [[a1 a2] a3], b as [[b1 b2] b3]. cbn [lex lex_le].
  destruct (Z.compare_spec a1 b1); [destruct (Z.compare_spec a2 b2);
    [destruct (Z.compare_spec a3 b3)|..]|..]; split; intros G; try lia; try congruence.
Qed.

Lemma lex_le_trans a b c : lex_le a b -> lex_le b c -> lex_le a c.
Proof.
  destruct a as [[a1 a2] a3], b as [[b1 b2] b3], c as [[c1 c2] c3]. cbn [lex_le]. lia.
Qed.

Lemma SFleb_lex x y :
  SFleb x y = true <-> x <> S754_nan /\ y <> S754_nan /\ lex_le (key x) (key y).
Proof.
  split.
  - intros H. destruct (SF.SFleb_not_nan x y H) as [Hx Hy]. repeat split; auto.
    apply lex_le_spec. unfold SFleb in H. rewrite (SFcompare_lex x y Hx Hy) in H.
    intros G. rewrite G in H. discriminate.
  - intros (Hx & Hy & H). apply lex_le_spec in H. unfold SFleb.
    rewrite (SFcompare_lex x y Hx Hy). destruct (lex (key x) (key y)); congruence.
Qed.

Lemma SFleb_trans x y z : SFleb x y = true -> SFleb y z = true -> SFleb x z = true.
Proof.
  rewrite !SFleb_lex. intros (Hx & Hy & H1) (_ & Hz & H2). repeat split; auto.
  eapply lex_le_trans; eassumption.
Qed.

Lemma SFeqb_lex x y :
  SFeqb x y = true <-> x <> S754_nan /\ y <> S754_nan /\ key x = key y.
Proof.
  assert (E : forall a b, lex a b = Eq <-> a = b).
  { intros [[a1 a2] a3] [[b1 b2] b3]. cbn [lex].
    destruct (Z.compare_spec a1 b1); [destruct (Z.compare_spec a2 b2);
      [destruct (Z.compare_spec a3 b3)|..]|..]; split; intros G;
      try discriminate; try (injection G; lia); subst; reflexivity. }
  unfold SFeqb. split.
  - intros H. assert (N : SFcompare x y <> None) by (intros N; rewrite N in H; discriminate).
    assert (Hx : x <> S754_nan) by (intros ->; apply N; reflexivity).
    assert (Hy : y <> S754_nan) by (intros ->; apply N; destruct x; reflexivity).
    repeat split; auto. rewrite (SFcompare_lex x y Hx Hy) in H.
    apply E. destruct (lex (key x) (key y)); congruence.
  - intros (Hx & Hy & H). rewrite (SFcompare_lex x y Hx Hy).
    apply E in H. rewrite H. reflexivity.
Qed.

Local Close Scope Z_scope.
Local Open Scope float_scope.

(** [<=] is transitive. *)
Lemma leb_trans x y z : (x <=? y) = true -> (y <=? z) = true -> (x <=? z) = true.
Proof. rewrite !leb_spec. apply SFleb_trans. Qed.

(** [x <= y] excludes [y < x]. *)
Lemma leb_not_gt x y : (x <=? y) = true -> (y <? x) = false.
Proof.
  rewrite leb_spec, ltb_spec. unfold SFleb, SFltb.
  rewrite (SF.SFcompare_antisym (Prim2SF x) (Prim2SF y)).
  destruct (SFcompare (Prim2SF x) (Prim2SF y)) as [[| |]|]; cbn; congruence.
Qed.

(** Two numbers equal to a third are not in strict order. *)
Lemma eqb_not_ltb x y k : (x =? k) = true -> (y =? k) = true -> (x <? y) = false.
Proof.
  rewrite !eqb_spec, ltb_spec, !SFeqb_lex. intros (Hx & _ & E1) (Hy & _ & E2).
  unfold SFltb. rewrite (SFcompare_lex _ _ Hx Hy), E1, E2.
  destruct (key (Prim2SF k)) as [[a b] c]. cbn [lex]. rewrite !Z.compare_refl. reflexivity.
Qed.
End F64Order.

(** * More on sorting by a numeric key *)

Section SortByKeyMore.
Context {A : Type}.
Variable key : A -> number.

Let comparefn (a b : A) : number := key a - key b.
Let le (a b : A) : Prop := js_le (key a) (key b) = true.
Let numeric (a : A) : Prop := is_nan (key a) = false.

(** Insertion does not reorder the elements whose key equals [k]. *)
Lemma sort_insert_stable k x l :
  filter (fun t => key t =? k) (sort_insert comparefn x l) =
  filter (fun t => key t =? k) (x :: l).
Proof.
  induction l as [|y l IH]; cbn [sort_insert]; [reflexivity|].
  change (js_gt (comparefn x y) 0) with (0 <? key x - key y). rewrite F64.sub_pos.
  destruct (key y <? key x) eqn:L; [|reflexivity].
  cbn [filter] in *. rewrite IH.
  destruct (key y =? k) eqn:Ey, (key x =? k) eqn:Ex; try reflexivity.
  rewrite (F64Order.eqb_not_ltb _ _ _ Ey Ex) in L. discriminate.
Qed.

Lemma Array_sort_stable k l :
  filter (fun t => key t =? k) (Array_sort comparefn l) =
  filter (fun t => key t =? k) l.
Proof.
  induction l as [|x l IH]; cbn [Array_sort fold_right]; [reflexivity|].
  change (fold_right (sort_insert comparefn) [] l) with (Array_sort comparefn l).
  rewrite sort_insert_stable. cbn [filter]. rewrite IH. reflexivity.
Qed.

Lemma le_transitive : Transitive le.
Proof. intros a b c. apply F64Order.leb_trans. Qed.

(** An element that nothing in the list is below goes to the front. *)
Lemma sort_insert_front x l :
  Forall (le x) l -> sort_insert comparefn x l = x :: l.
Proof.
  intros H. destruct l as [|y l]; [reflexivity|]. cbn [sort_insert].
  change (js_gt (comparefn x y) 0) with (0 <? key x - key y). rewrite F64.sub_pos.
  inversion H as [|? ? Hy _]; subst. rewrite (F64Order.leb_not_gt _ _ Hy). reflexivity.
Qed.

(** Filtering a sorted list after an insertion, or before it *)
Lemma sort_insert_filter (p : A -> bool) x l :
  numeric x -> Forall numeric l -> Sorted le l ->
  filter p (sort_insert comparefn x l) =
  if p x then sort_insert comparefn x (filter p l) else filter p l.
Proof.
  intros Nx Nl S. apply (Sorted_StronglySorted le_transitive) in S.
  induction S as [|y l S IH Hy]; cbn [sort_insert filter].
  - destruct (p x); reflexivity.
  - apply Forall_cons_iff in Nl. destruct Nl as [Ny Nl].
    specialize (IH Nl). change (js_gt (comparefn x y) 0) with (0 <? key x - key y). rewrite F64.sub_pos.
    destruct (key y <? key x) eqn:L.
    + cbn [filter]. rewrite IH.
      destruct (p y), (p x); try reflexivity.
      cbn [sort_insert]. change (js_gt (comparefn x y) 0) with (0 <? key x - key y). rewrite F64.sub_pos, L. reflexivity.
    + cbn [filter]. destruct (p x); [|reflexivity].
      symmetry. apply sort_insert_front.
      assert (Lxy : le x y) by (apply F64.leb_total; assumption).
      assert (All : Forall (le x) (y :: l)).
      { constructor; [assumption|]. revert Hy. apply Forall_impl.
        intros z Hz. exact (le_transitive _ _ _ Lxy Hz). }
      apply Forall_forall. intros z Hz.
      change (if p y then y :: filter p l else filter p l) with (filter p (y :: l)) in Hz.
      apply filter_In in Hz. destruct Hz as [Hz _].
      revert z Hz. apply Forall_forall. assumption.
Qed.

(** Sorting what a filter keeps, or filtering what was sorted *)
Lemma Array_sort_filter (p : A -> bool) l :
  Forall numeric l ->
  Array_sort comparefn (filter p l) = filter p (Array_sort comparefn l).
Proof.
  induction l as [|x l IH]; intros N; [reflexivity|].
  apply Forall_cons_iff in N. destruct N as [Nx Nl].
  cbn [Array_sort fold_right filter].
  change (fold_right (sort_insert comparefn) [] l) with (Array_sort comparefn l).
  rewrite sort_insert_filter; [| assumption | | apply Array_sort_Sorted; assumption].
  - destruct (p x); cbn [Array_sort fold_right];
      change (fold_right (sort_insert comparefn) [] (filter p l))
        with (Array_sort comparefn (filter p l));
      rewrite (IH Nl); reflexivity.
  - apply Forall_forall. intros t Ht.
    apply (proj1 (Array_sort_In comparefn l t)) in Ht.
    revert t Ht. apply Forall_forall. assumption.
Qed.
End SortByKeyMore.

(** * The ranking, row by row *)

Lemma filter_map_commute {A B : Type} (f : B -> bool) (g : A -> B) (l : list A) :
  filter f (map g l) = map g (filter (fun a => f (g a)) l).
Proof.
  induction l as [|a l IH]; cbn [map filter]; [reflexivity|].
  rewrite IH. destruct (f (g a)); reflexivity.
Qed.

Lemma filter_filter {A : Type} (f g : A -> bool) (l : list A) :
  filter f (filter g l) = filter (fun a => g a && f a) l.
Proof.
  induction l as [|a l IH]; cbn [filter]; [reflexivity|].
  destruct (g a); cbn [filter andb]; rewrite IH; reflexivity.
Qed.

(** What [filter] keeps of freshly built objects *)
Lemma Array_filter_within M req (rows : list Temple.row) :
  Array_filter (within M (userLat req) (userLng req) (radiusKm req))
    (map (fun r => {| row := r; distance := None |}) rows) =
  map (ranked_entry M req)
    (filter (fun r => js_le (row_distance M req r) (radiusKm req)) rows).
Proof.
  induction rows as [|r rows IH]; cbn [map Array_filter filter]; [reflexivity|].
  unfold within at 1. cbn [row]. fold (row_distance M req r).
  destruct (js_le (row_distance M req r) (radiusKm req)); cbn [map]; rewrite IH; reflexivity.
Qed.

(** The entries a ranked search sorts: one per kept row, in catalog order *)
Lemma ranked_before_sort M req db :
  Array_filter (within M (userLat req) (userLng req) (radiusKm req)) (selected req db) =
  map (ranked_entry M req) (filter (kept M req) (temples_table db)).
Proof.
  unfold selected, db_all. cbn [fst]. rewrite Array_filter_within, filter_filter. reflexivity.
Qed.

Lemma ranked_body M req db :
  reference_point_supplied req = true ->
  body (fst (api_temples M req db)) =
  Array_sort by_distance (map (ranked_entry M req) (filter (kept M req) (temples_table db))).
Proof.
  intros R. rewrite (api_temples_ranked M req db R), ranked_before_sort. reflexivity.
Qed.

Lemma ranked_entries_numeric M req rows :
  Forall (fun t => is_nan (distanceKm t) = false)
    (map (ranked_entry M req) (filter (kept M req) rows)).
Proof.
  apply Forall_forall. intros t Ht. apply in_map_iff in Ht.
  destruct Ht as (r & <- & Hr). apply filter_In in Hr. destruct Hr as [_ K].
  unfold kept in K. apply andb_true_iff in K. destruct K as [_ K].
  apply F64.leb_not_nan in K. apply K.
Qed.

Lemma StronglySorted_filter {A : Type} (id : A -> Z) (p : A -> bool) (l : list A) :
  StronglySorted Z.lt (map id l) -> StronglySorted Z.lt (map id (filter p l)).
Proof.
  induction l as [|x l IH]; cbn [map filter]; intros S; [constructor|].
  apply StronglySorted_inv in S. destruct S as [S F].
  destruct (p x); [|exact (IH S)].
  cbn [map]. constructor; [exact (IH S)|].
  rewrite Forall_forall in *. intros i I. apply F.
  apply in_map_iff in I. destruct I as (y & <- & I). apply in_map.
  apply filter_In in I. apply I.
Qed.

(** X1. Ties keep the order of the table, which is that of the ids: among
    the entries of a ranked response, those at distance [k] are the kept
    rows at distance [k] in the order in which the [SELECT] scans them, by
    ascending id. *)
Theorem ranked_ties_in_catalog_order M req db k :
  in_rowid_order db ->
  reference_point_supplied req = true ->
  let ties := filter (fun t => distanceKm t =? k) (body (fst (api_temples M req db))) in
  map row ties =
    filter (fun r => kept M req r && (row_distance M req r =? k)) (temples_table db) /\
  StronglySorted Z.lt (map (fun t => Temple.id (row t)) ties).
Proof.
  intros O R ties.
  assert (E : map row ties =
              filter (fun r => kept M req r && (row_distance M req r =? k))
                (temples_table db)).
  { subst ties. rewrite (ranked_body M req db R).
    rewrite (Array_sort_stable distanceKm k), filter_map_commute, filter_filter, map_map.
    cbn [ranked_entry row distanceKm distance]. apply map_id. }
  split; [exact E|].
  rewrite <- (map_map row Temple.id), E. apply StronglySorted_filter. exact O.
Qed.

(** X2. Radii nest: with the same reference point, the response for a
    radius is the response for any larger radius cut at the smaller one;
    what remains keeps its order. *)
Theorem radius_nesting M req db small large :
  reference_point_supplied req = true ->
  js_le (radiusKm (with_radius req small)) (radiusKm (with_radius req large)) = true ->
  body (fst (api_temples M (with_radius req small) db)) =
  filter (fun t => js_le (distanceKm t) (radiusKm (with_radius req small)))
    (body (fst (api_temples M (with_radius req large) db))).
Proof.
  intros R L.
  rewrite !ranked_body by exact R.
  rewrite <- (Array_sort_filter distanceKm) by apply ranked_entries_numeric.
  f_equal. rewrite filter_map_commute, filter_filter. f_equal.
  apply filter_ext. intros r. unfold kept.
  cbn [ranked_entry distanceKm distance]. unfold js_le in *.
  change (row_distance M (with_radius req small) r) with (row_distance M req r).
  change (row_distance M (with_radius req large) r) with (row_distance M req r).
  change (statement (with_radius req small)) with (statement req).
  change (statement (with_radius req large)) with (statement req).
  destruct (where_holds (statement req) r); cbn [andb]; [|reflexivity].
  destruct (PrimFloat.leb (row_distance M req r) (radiusKm (with_radius req small))) eqn:S.
  - rewrite (F64Order.leb_trans _ _ _ S L). reflexivity.
  - symmetry. apply andb_false_r.
Qed.

(** X3. A search returns catalog rows and nothing else: without a reference
    point, the rows that pass the [WHERE] clause, in catalog order and with no
    distance; with one, a rearrangement of the kept rows, each once and with
    its distance. *)
Theorem search_returns_catalog_rows M req db :
  if reference_point_supplied req
  then Permutation (body (fst (api_temples M req db)))
         (map (ranked_entry M req) (filter (kept M req) (temples_table db)))
  else body (fst (api_temples M req db)) =
       map (fun r => {| row := r; distance := None |})
         (filter (where_holds (statement req)) (temples_table db)).
Proof.
  destruct (reference_point_supplied req) eqn:R.
  - rewrite (ranked_body M req db R). symmetry. apply Array_sort_perm.
  - unfold reference_point_supplied in R. unfold api_temples.
    cbn [db_all fst body res_json]. rewrite R. reflexivity.
Qed.

(** * The [WHERE] clause *)

Local Open Scope N_scope.








Local Close Scope N_scope.
Local Open Scope string_scope.

Lemma list_ascii_of_string_app s1 s2 :
  list_ascii_of_string (s1 ++ s2) = (list_ascii_of_string s1 ++ list_ascii_of_string s2)%list.
Proof. induction s1 as [|c s1 IH]; cbn; [reflexivity | rewrite IH; reflexivity]. Qed.





Local Close Scope string_scope.

(** * The type filter of the client *)

Local Open Scope string_scope.

Lemma append_assoc (a b c : string) : (a ++ b) ++ c = a ++ (b ++ c).
Proof. induction a as [|x a IH]; cbn; [reflexivity | rewrite IH; reflexivity]. Qed.

Lemma append_empty_r (a : string) : a ++ "" = a.
Proof. induction a as [|x a IH]; cbn; [reflexivity | rewrite IH; reflexivity]. Qed.

Lemma split_comma_aux_not_nil cur l : split_comma_aux cur l <> [].
Proof.
  revert cur. induction l as [|c l IH]; intros cur; cbn [split_comma_aux]; [discriminate|].
  destruct (Ascii.eqb c ","%char); [discriminate | apply IH].
Qed.

Lemma concat_cons sep (x : string) (l : list string) :
  l <> [] -> String.concat sep (x :: l) = x ++ sep ++ String.concat sep l.
Proof. destruct l; [congruence | reflexivity]. Qed.

Lemma join_split_aux l : forall cur,
  String.concat "," (split_comma_aux cur l) = cur ++ string_of_list_ascii l.
Proof.
  induction l as [|c l IH]; intros cur; cbn [split_comma_aux string_of_list_ascii].
  - cbn. symmetry. apply append_empty_r.
  - destruct (Ascii.eqb c ","%char) eqn:E.
    + apply Ascii.eqb_eq in E. subst c.
      rewrite concat_cons by apply split_comma_aux_not_nil. rewrite IH. reflexivity.
    + rewrite IH, append_assoc. reflexivity.
Qed.

(** A segment without comma, then the end or a comma *)
Lemma split_comma_aux_segment seg : forall cur rest,
  forallb (fun c => negb (Ascii.eqb c ","%char)) seg = true ->
  split_comma_aux cur (seg ++ rest)%list =
  split_comma_aux (cur ++ string_of_list_ascii seg) rest.
Proof.
  induction seg as [|c seg IH]; intros cur rest H; cbn [app string_of_list_ascii].
  - rewrite append_empty_r. reflexivity.
  - cbn [forallb] in H. apply andb_true_iff in H. destruct H as [Hc H].
    apply negb_true_iff in Hc. cbn [split_comma_aux]. rewrite Hc, (IH _ _ H), append_assoc.
    reflexivity.
Qed.

Lemma split_join_aux (types : list string) : forall first,
  no_comma first = true -> forallb no_comma types = true ->
  split_comma (String.concat "," (first :: types)) = first :: types.
Proof.
  induction types as [|second types IH]; intros first Hf Ht.
  - cbn [String.concat]. unfold split_comma.
    rewrite <- (app_nil_r (list_ascii_of_string first)).
    rewrite (split_comma_aux_segment _ "" [] Hf). cbn [split_comma_aux append].
    rewrite string_of_list_ascii_of_string. reflexivity.
  - cbn [forallb] in Ht. apply andb_true_iff in Ht. destruct Ht as [Hs Ht].
    rewrite concat_cons by discriminate. unfold split_comma.
    rewrite list_ascii_of_string_app.
    rewrite (split_comma_aux_segment _ "" _ Hf). cbn [append].
    rewrite string_of_list_ascii_of_string.
    cbn [list_ascii_of_string split_comma_aux]. rewrite Ascii.eqb_refl.
    fold (split_comma (String.concat "," (second :: types))).
    rewrite (IH second Hs Ht). reflexivity.
Qed.

(** X5. What the client joins the server splits: [split(",")] gives back
    the selected types, as long as one is selected and none holds a comma;
    and joining what [split(",")] gave always gives back the parameter. *)
Theorem join_split_round_trip :
  (forall selectedTypes,
     selectedTypes <> [] -> forallb no_comma selectedTypes = true ->
     split_comma (Array_join_comma selectedTypes) = selectedTypes) /\
  (forall type, Array_join_comma (split_comma type) = type).
Proof.
  split.
  - intros [|first types] N H; [congruence|].
    cbn [forallb] in H. apply andb_true_iff in H. destruct H as [Hf Ht].
    apply split_join_aux; assumption.
  - intros type. unfold Array_join_comma, split_comma.
    rewrite join_split_aux. cbn [append]. apply string_of_list_ascii_of_string.
Qed.

(** ** [toggleType] *)

Lemma existsb_eqb_In (x : string) (l : list string) :
  existsb (String.eqb x) l = true <-> In x l.
Proof.
  rewrite existsb_exists. split.
  - intros (y & I & E). apply String.eqb_eq in E. subst y. exact I.
  - intros I. exists x. split; [exact I | apply String.eqb_refl].
Qed.

Lemma filter_absent (type : string) (l : list string) :
  ~ In type l -> filter (fun t => negb (String.eqb t type)) l = l.
Proof.
  induction l as [|x l IH]; intros N; cbn [filter]; [reflexivity|].
  destruct (String.eqb_spec x type) as [->|D]; cbn [negb].
  - exfalso. apply N. left. reflexivity.
  - rewrite IH; [reflexivity|]. intros I. apply N. right. exact I.
Qed.

(** X6. A click on a type selects it when it was not selected and deselects
    it when it was, and touches no other type; a selection without
    duplicates stays without duplicates. *)
Theorem toggleType_flips type prev :
  (In type (toggleType type prev) <-> ~ In type prev) /\
  (forall other, other <> type -> (In other (toggleType type prev) <-> In other prev)) /\
  (NoDup prev -> NoDup (toggleType type prev)).
Proof.
  unfold toggleType. destruct (existsb (String.eqb type) prev) eqn:E.
  - apply existsb_eqb_In in E. repeat split.
    + intros I. apply filter_In in I. destruct I as [_ I].
      rewrite String.eqb_refl in I. discriminate.
    + tauto.
    + intros I. apply filter_In in I. tauto.
    + intros I. apply filter_In. split; [exact I|].
      apply negb_true_iff, String.eqb_neq. assumption.
    + apply NoDup_filter.
  - assert (N : ~ In type prev).
    { intros I. apply existsb_eqb_In in I. congruence. }
    repeat split.
    + tauto.
    + intros _. apply in_or_app. right. left. reflexivity.
    + intros I. apply in_app_or in I. destruct I as [I | [I | []]]; [exact I | congruence].
    + intros I. apply in_or_app. left. exact I.
    + intros D. apply NoDup_app; [exact D | repeat constructor; intros [] | ].
      intros x Ix [<- | []]. exact (N Ix).
Qed.

Lemma filter_out_then_append (type : string) (prev : list string) :
  NoDup prev -> In type prev ->
  Permutation (filter (fun t => negb (String.eqb t type)) prev ++ [type])%list prev.
Proof.
  induction prev as [|x prev IH]; intros D I; [destruct I|].
  inversion D as [|? ? Nx D']; subst. cbn [filter].
  destruct (String.eqb_spec x type) as [->|Ne]; cbn [negb].
  - rewrite (filter_absent _ _ Nx). symmetry. apply Permutation_cons_append.
  - cbn [app]. apply perm_skip. apply IH; [exact D'|].
    destruct I as [E | I]; [congruence | exact I].
Qed.

Lemma toggleType_selected type prev :
  In type prev -> toggleType type prev = filter (fun t => negb (String.eqb t type)) prev.
Proof.
  intros I. unfold toggleType.
  replace (existsb (String.eqb type) prev) with true
    by (symmetry; apply existsb_eqb_In; exact I).
  reflexivity.
Qed.

Lemma toggleType_unselected type prev :
  ~ In type prev -> toggleType type prev = (prev ++ [type])%list.
Proof.
  intros N. unfold toggleType.
  replace (existsb (String.eqb type) prev) with false
    by (symmetry; apply not_true_is_false; rewrite existsb_eqb_In; exact N).
  reflexivity.
Qed.

(** X7. Two clicks on a type leave the selection as it was when the type
    was not selected; when it was, they move it to the end, and what is
    selected is the same. *)
Theorem toggleType_twice type prev :
  NoDup prev ->
  (~ In type prev -> toggleType type (toggleType type prev) = prev) /\
  (In type prev ->
   toggleType type (toggleType type prev) =
   (filter (fun t => negb (String.eqb t type)) prev ++ [type])%list /\
   Permutation (toggleType type (toggleType type prev)) prev).
Proof.
  intros D. split.
  - intros N. rewrite (toggleType_unselected _ _ N).
    rewrite toggleType_selected by (apply in_or_app; right; left; reflexivity).
    rewrite filter_app, (filter_absent _ _ N). cbn [filter].
    rewrite String.eqb_refl. cbn [negb]. apply app_nil_r.
  - intros I. rewrite (toggleType_selected _ _ I).
    rewrite toggleType_unselected.
    + split; [reflexivity | apply filter_out_then_append; assumption].
    + intros F. apply filter_In in F. destruct F as [_ F].
      rewrite String.eqb_refl in F. discriminate.
Qed.

Local Close Scope string_scope.

(** * The statement that the search prepares *)

Local Open Scope string_scope.

Lemma strip_prefix_app prefix s : strip_prefix prefix (prefix ++ s) = Some s.
Proof.
  induction prefix as [|c prefix IH]; cbn [strip_prefix append]; [reflexivity|].
  rewrite Ascii.eqb_refl. exact IH.
Qed.

(** [types.map(() => "?").join(",")] and the parenthesis after it *)
Lemma more_placeholders_join (types : list string) x rest :
  exists tail,
    String.concat "," (map (fun _ => "?") (x :: types)) ++ ")" ++ rest = "?" ++ tail /\
    more_placeholders tail = Some (List.length types, rest).
Proof.
  revert x. induction types as [|y types IH]; intros x.
  - exists (")" ++ rest). split; reflexivity.
  - destruct (IH y) as (tail & E & P).
    exists ("," ++ "?" ++ tail). split.
    + cbn [map] in *. rewrite concat_cons by discriminate.
      rewrite !append_assoc, E. reflexivity.
    + cbn [append more_placeholders]. rewrite P. reflexivity.
Qed.

(** The text that the handler writes is a [SELECT] of the model, whatever
    the request: the parameters reach the values bound, never the text. *)
Lemma prepare_query req :
  sqlite3_prepare (query req) =
  Some {| stmt_verb := SELECT;
          stmt_city := truthy (Query.city req);
          stmt_types := if truthy (Query.type req)
                        then Some (List.length (split_comma (text (Query.type req))))
                        else None |}.
Proof.
  unfold query.
  destruct (truthy (Query.type req)); [|destruct (truthy (Query.city req)); reflexivity].
  pose proof (split_comma_aux_not_nil "" (list_ascii_of_string (text (Query.type req)))) as N.
  fold (split_comma (text (Query.type req))) in N.
  destruct (split_comma (text (Query.type req))) as [|x types]; [congruence|].
  destruct (more_placeholders_join types x "") as (tail & E & P).
  change (")" ++ "") with ")" in E.
  destruct (truthy (Query.city req)); cbv zeta; rewrite ?append_assoc, E;
    unfold sqlite3_prepare; cbn; rewrite P; reflexivity.
Qed.

(** As many values are bound as the text has placeholders, and they are
    those of [statement]. *)
Lemma bound_params req :
  List.length (params req) =
    placeholders {| stmt_verb := SELECT;
                    stmt_city := truthy (Query.city req);
                    stmt_types := if truthy (Query.type req)
                                  then Some (List.length (split_comma (text (Query.type req))))
                                  else None |} /\
  bound {| stmt_verb := SELECT;
           stmt_city := truthy (Query.city req);
           stmt_types := if truthy (Query.type req)
                         then Some (List.length (split_comma (text (Query.type req))))
                         else None |} (params req) = statement req.
Proof.
  unfold params, placeholders, bound, statement. cbn [stmt_city stmt_types].
  destruct (truthy (Query.city req)), (truthy (Query.type req));
    cbn [app List.length hd tl]; rewrite ?app_nil_r; split; reflexivity.
Qed.

(** The handler with the statement as text answers as [api_temples]. *)
Lemma api_temples_sql_eq M req db :
  api_temples_sql M req db = (Some (fst (api_temples M req db)), db).
Proof.
  unfold api_temples_sql. rewrite prepare_query.
  destruct (bound_params req) as [L B].
  unfold stmt_all. rewrite L, Nat.eqb_refl, B. reflexivity.
Qed.

(** C9. The search reads the catalog and leaves it as it was, and the same
    request on the same catalog gets the same response: the statement that
    the handler prepares is a [SELECT] whatever the request, so the second
    of two calls in a row answers as the first and the catalog is still the
    one they started from. *)
Theorem search_is_deterministic_and_read_only M req db :
  let '(first, db1) := api_temples_sql M req db in
  let '(second, db2) := api_temples_sql M req db1 in
  (exists stmt, sqlite3_prepare (query req) = Some stmt /\ stmt_verb stmt = SELECT) /\
  first <> None /\ first = second /\ db1 = db /\ db2 = db.
Proof.
  rewrite (api_temples_sql_eq M req db), (api_temples_sql_eq M req db).
  split; [|repeat split; discriminate].
  eexists. split; [apply prepare_query | reflexivity].
Qed.

(** With [DELETE] in the place of [SELECT] the same text empties the
    catalog of what it returns. *)
Lemma delete_is_not_read_only :
  match sqlite3_prepare "DELETE FROM temples WHERE 1=1 AND city LIKE ? RETURNING *" with
  | Some stmt => snd (stmt_all stmt ["%pune%"] seeded) = {| temples_table := [] |}
  | None => False
  end.
Proof. vm_compute. reflexivity. Qed.

Local Close Scope string_scope.

(** * Accounts *)

Local Open Scope string_scope.
Local Open Scope Z_scope.

Lemma plain_auth_sound : bcrypt_sound PlainAuth.lib.
Proof. intros p r s. cbn. apply String.eqb_refl. Qed.

Lemma existsb_has_email email users :
  existsb (has_email email) users = true <-> In email (stored_emails users).
Proof.
  induction users as [|u users IH]; cbn [existsb stored_emails flat_map].
  - split; [discriminate | intros []].
  - rewrite orb_true_iff, in_app_iff, IH. unfold has_email.
    destruct (User.email u) as [e|].
    + cbn [In]. rewrite String.eqb_eq. tauto.
    + cbn [In]. intuition discriminate.
Qed.

Lemma stored_emails_app users users' :
  stored_emails (users ++ users') = (stored_emails users ++ stored_emails users')%list.
Proof. unfold stored_emails. apply flat_map_app. Qed.

Lemma largest_rowid_bound users :
  0 <= largest_rowid users /\ Forall (fun u => User.id u <= largest_rowid users) users.
Proof.
  induction users as [|u users [P IH]]; cbn [largest_rowid fold_right].
  - split; [lia | constructor].
  - fold (largest_rowid users). split; [lia|]. constructor; [lia|].
    apply (Forall_impl _ (P := fun u => User.id u <= largest_rowid users)); [|exact IH].
    cbn. intros. lia.
Qed.

Lemma find_app_absent email users users' :
  existsb (has_email email) users = false ->
  find (has_email email) (users ++ users') = find (has_email email) users'.
Proof.
  induction users as [|u users IH]; cbn [existsb find app]; [reflexivity|].
  intros H. apply orb_false_iff in H. destruct H as [-> H]. auto.
Qed.

(** With emails that are not shared, [get] finds the row that has the
    email. *)
Lemma find_the_row email u users :
  NoDup (stored_emails users) -> In u users -> User.email u = Some email ->
  find (has_email email) users = Some u.
Proof.
  induction users as [|v users IH]; intros D I E; [destruct I|].
  cbn [find]. cbn [stored_emails flat_map] in D. fold (stored_emails users) in D.
  destruct I as [-> | I].
  - unfold has_email. rewrite E, String.eqb_refl. reflexivity.
  - assert (Iu : In email (stored_emails users)).
    { apply existsb_has_email, existsb_exists. exists u. split; [exact I|].
      unfold has_email. rewrite E. apply String.eqb_refl. }
    unfold has_email at 1. destruct (User.email v) as [e|] eqn:Ev.
    + cbn [app] in D. inversion D as [|? ? N D']; subst.
      destruct (String.eqb_spec e email) as [->|Ne]; [contradiction|].
      apply IH; assumption.
    + apply IH; assumption.
Qed.

Lemma insert_user_ok L email password s name now db rowid db' :
  accounts_ok L db ->
  insert_user email (bcrypt_hash L password 10 s) name now db = Some (rowid, db') ->
  accounts_ok L db'.
Proof.
  intros [Di De Ds Dh]. unfold insert_user.
  destruct (email_in_use email (users_table db)) eqn:T; [discriminate|].
  destruct (Z.ltb_spec max_rowid (next_rowid db)) as [F|F]; [discriminate|].
  intros H. injection H as <- <-.
  pose proof (largest_rowid_bound (users_table db)) as [P B].
  assert (N : forall u, In u (users_table db) -> User.id u < next_rowid db).
  { intros u I. rewrite Forall_forall in B. specialize (B u I).
    unfold next_rowid. lia. }
  split; cbn [users_table users_seq].
  - rewrite map_app. cbn [map User.id].
    apply NoDup_app; [exact Di | repeat constructor; intros [] |].
    intros i I [<-|[]]. apply in_map_iff in I. destruct I as (u & E & I).
    specialize (N u I). lia.
  - rewrite stored_emails_app. cbn [stored_emails flat_map User.email].
    destruct email as [e|]; cbn [app]; [|rewrite app_nil_r; exact De].
    apply NoDup_app; [exact De | repeat constructor; intros [] |].
    intros e' I [<-|[]]. apply existsb_has_email in I. cbn [email_in_use] in T. congruence.
  - apply Forall_app. split.
    + apply Forall_forall. intros u I. rewrite Forall_forall in Ds.
      specialize (Ds u I). specialize (N u I). lia.
    + repeat constructor; cbn [User.id]; unfold next_rowid; lia.
  - apply Forall_app. split; [exact Dh|]. repeat constructor.
    exists password, s. reflexivity.
Qed.

Lemma register_ok L secret email password name env db :
  accounts_ok L db -> accounts_ok L (snd (register L secret email password name env db)).
Proof.
  intros K. unfold register. destruct password as [| |password]; try exact K.
  destruct (bind email) as [e|]; [|exact K].
  destruct (bind name) as [n|]; [|exact K].
  destruct (insert_user e _ n _ db) as [[rowid db']|] eqn:I; [|exact K].
  cbn [snd]. exact (insert_user_ok _ _ _ _ _ _ _ _ _ K I).
Qed.

Lemma login_db L secret email password env db :
  snd (login L secret email password env db) = db.
Proof.
  unfold login. destruct (bind email) as [e|]; [|reflexivity].
  destruct (get_user e db) as [u|]; [|reflexivity].
  destruct password as [| |password]; try reflexivity.
  destruct (User.password u); [|reflexivity].
  destruct (bcrypt_compare L _ _); reflexivity.
Qed.

Lemma serve_ok L secret db r :
  accounts_ok L db -> accounts_ok L (serve L secret db r).
Proof.
  intros H. unfold serve. destruct (fst r).
  - apply register_ok. exact H.
  - rewrite login_db. exact H.
Qed.

Lemma serve_all_ok L secret requests : forall db,
  accounts_ok L db -> accounts_ok L (serve_all L secret requests db).
Proof.
  induction requests as [|r requests IH]; intros db H; [exact H|].
  cbn [serve_all fold_left]. apply IH, serve_ok, H.
Qed.

Lemma no_accounts_ok L : accounts_ok L no_accounts.
Proof. split; cbn; constructor. Qed.

(** X8. A visitor who registers with an email that is not in use gets a
    session for a new account, whose id is the rowid as a Number; the
    visitor can then log in with the same password and gets the same
    account, and is turned away with a password that [bcrypt] does not
    accept for the stored hash. *)
Theorem register_then_login L secret email password name env env' db :
  bcrypt_sound L ->
  ~ In email (stored_emails (users_table db)) ->
  next_rowid db <= max_rowid ->
  let me := {| account_id := Number_of_int64 (next_rowid db);
               account_email := Some email; account_name := Some name |} in
  let db' := snd (register L secret (JString email) (JString password) (JString name)
                    env db) in
  fst (register L secret (JString email) (JString password) (JString name) env db) =
    Some {| auth_status := 200;
            auth_body := Session (jwt_sign L (Number_of_int64 (next_rowid db)) secret
                                    (iat env)) me |} /\
  login L secret (JString email) (JString password) env' db' =
    (Some {| auth_status := 200;
             auth_body := Session (jwt_sign L (Number_of_int64 (next_rowid db)) secret
                                     (iat env')) me |},
     db') /\
  forall wrong,
    bcrypt_compare L wrong (bcrypt_hash L password 10 (salt env)) = false ->
    login L secret (JString email) (JString wrong) env' db' =
    (Some {| auth_status := 401; auth_body := Failure "Invalid credentials" |}, db').
Proof.
  intros S N F me db'. subst me db'.
  assert (T : existsb (has_email email) (users_table db) = false).
  { apply not_true_is_false. rewrite existsb_has_email. exact N. }
  unfold register, insert_user. cbn [bind email_in_use]. rewrite T.
  destruct (Z.ltb_spec max_rowid (next_rowid db)) as [F'|_]; [lia|].
  cbn [fst snd]. split; [reflexivity|].
  unfold login, get_user. cbn [bind users_table].
  rewrite (find_app_absent _ _ _ T). cbn [find has_email User.email].
  rewrite String.eqb_refl. cbn [User.password User.id User.email User.name].
  split.
  - rewrite S. reflexivity.
  - intros wrong W. rewrite W. reflexivity.
Qed.

(** A rowid above [2^53] reaches the visitor rounded: [2^53 + 1] as
    [2^53]. *)
Lemma rowid_above_2_53 : Number_of_int64 (2 ^ 53 + 1) = 0x1p53%float.
Proof. reflexivity. Qed.

Lemma register_then_login_witness :
  fst (register PlainAuth.lib "k" (JString "asha@example.org") (JString "lotus")
         (JString "Asha") noon no_accounts) =
    Some {| auth_status := 200;
            auth_body := Session "k.1" {| account_id := 1%float;
                                          account_email := Some "asha@example.org";
                                          account_name := Some "Asha" |} |} /\
  fst (login PlainAuth.lib "k" (JString "asha@example.org") (JString "lotus") noon
         one_account) =
    Some {| auth_status := 200;
            auth_body := Session "k.1" {| account_id := 1%float;
                                          account_email := Some "asha@example.org";
                                          account_name := Some "Asha" |} |} /\
  fst (login PlainAuth.lib "k" (JString "asha@example.org") (JString "lily") noon
         one_account) =
    Some {| auth_status := 401; auth_body := Failure "Invalid credentials" |}.
Proof.
  destruct (register_then_login PlainAuth.lib "k" "asha@example.org" "lotus" "Asha"
              noon noon no_accounts plain_auth_sound)
    as (R & G & W).
  - intros [].
  - vm_compute. discriminate.
  - split; [exact R|]. split.
    + exact (f_equal fst G).
    + exact (f_equal fst (W "lily" eq_refl)).
Defined.

(** X9. Registering with an email that an account already has is answered
    with 400 and "Email already exists", whatever the password and the
    name, and leaves the table as it was: the account keeps its password. *)
Theorem register_email_in_use L secret email password name env db u :
  In u (users_table db) -> User.email u = Some email ->
  register L secret (JString email) (JString password) name env db =
  (Some {| auth_status := 400; auth_body := Failure "Email already exists" |}, db).
Proof.
  intros I E. unfold register, insert_user. cbn [bind].
  destruct (bind name) as [n|]; [|reflexivity]. cbn [email_in_use].
  replace (existsb (has_email email) (users_table db)) with true; [reflexivity|].
  symmetry. apply existsb_exists. exists u. split; [exact I|].
  unfold has_email. rewrite E. apply String.eqb_refl.
Qed.

Lemma register_email_in_use_witness :
  register PlainAuth.lib "k" (JString "asha@example.org") (JString "other")
    (JString "Mallory") noon one_account =
  (Some {| auth_status := 400; auth_body := Failure "Email already exists" |}, one_account).
Proof.
  apply (register_email_in_use PlainAuth.lib "k" "asha@example.org" "other"
           (JString "Mallory") noon one_account
           {| User.id := 1; User.email := Some "asha@example.org";
              User.password := Some "#lotus"; User.name := Some "Asha";
              User.created_at := Some "2023-11-14 22:13:20" |}).
  - left. reflexivity.
  - reflexivity.
Defined.

(** X10. Whatever requests the two routes have served since the table was
    created, each field of a body being a string, [null] or absent: no two
    accounts share an id or an email, the ids lie between 1 and the
    sequence, and the password of every account is a hash that [bcrypt]
    made with cost 10, never NULL. *)
Theorem accounts_stay_distinct_and_hashed L secret requests :
  accounts_ok L (serve_all L secret requests no_accounts).
Proof. apply serve_all_ok, no_accounts_ok. Qed.

(** X11. On such a table a login with a string for the email and for the
    password is always answered, and the table is not changed: with 200
    and the account that has the email when [bcrypt] accepts the password
    for its hash, with 401 and "Invalid credentials" when there is no such
    account or the password is not accepted. *)
Theorem login_answer L secret email password env db :
  accounts_ok L db ->
  (forall u hash,
     In u (users_table db) -> User.email u = Some email ->
     User.password u = Some hash -> bcrypt_compare L password hash = true ->
     login L secret (JString email) (JString password) env db =
     (Some {| auth_status := 200;
              auth_body := Session (jwt_sign L (Number_of_int64 (User.id u)) secret (iat env))
                             {| account_id := Number_of_int64 (User.id u);
                                account_email := Some email;
                                account_name := User.name u |} |}, db)) /\
  ((forall u hash,
      In u (users_table db) -> User.email u = Some email ->
      User.password u = Some hash -> bcrypt_compare L password hash = false) ->
   login L secret (JString email) (JString password) env db =
   (Some {| auth_status := 401; auth_body := Failure "Invalid credentials" |}, db)).
Proof.
  intros [Di De Ds Dh]. split.
  - intros u hash I E P C. unfold login, get_user. cbn [bind].
    rewrite (find_the_row email u _ De I E), P, C, E. reflexivity.
  - intros H. unfold login, get_user. cbn [bind].
    destruct (find (has_email email) (users_table db)) as [u|] eqn:Fu; [|reflexivity].
    apply find_some in Fu. destruct Fu as [I E]. unfold has_email in E.
    destruct (User.email u) as [e|] eqn:Eu; [|discriminate].
    apply String.eqb_eq in E. subst e.
    rewrite Forall_forall in Dh. destruct (Dh u I) as (p & s & P).
    rewrite P. rewrite (H u _ I Eu P). reflexivity.
Qed.

Lemma login_answer_witness :
  accounts_ok PlainAuth.lib one_account /\
  login PlainAuth.lib "k" (JString "asha@example.org") (JString "lotus") noon one_account =
  (Some {| auth_status := 200;
           auth_body := Session "k.1" {| account_id := 1%float;
                                         account_email := Some "asha@example.org";
                                         account_name := Some "Asha" |} |},
   one_account) /\
  login PlainAuth.lib "k" (JString "nobody@example.org") (JString "lotus") noon one_account =
  (Some {| auth_status := 401; auth_body := Failure "Invalid credentials" |}, one_account).
Proof.
  assert (K : accounts_ok PlainAuth.lib one_account)
    by exact (serve_all_ok PlainAuth.lib "k" _ _ (no_accounts_ok _)).
  split; [exact K|]. split.
  - refine (proj1 (login_answer PlainAuth.lib "k" "asha@example.org" "lotus" noon
                     one_account K)
              {| User.id := 1; User.email := Some "asha@example.org";
                 User.password := Some "#lotus"; User.name := Some "Asha";
                 User.created_at := Some "2023-11-14 22:13:20" |} "#lotus" _ _ _ _).
    + left. reflexivity.
    + reflexivity.
    + reflexivity.
    + reflexivity.
  - apply (proj2 (login_answer PlainAuth.lib "k" "nobody@example.org" "lotus" noon
                    one_account K)).
    intros u hash [<-|[]] E. discriminate E.
Defined.

Local Close Scope Z_scope.
Local Close Scope string_scope.

(** * Seeding *)

Local Open Scope Z_scope.

Lemma largest_temple_id_app rows r :
  largest_temple_id (rows ++ [r]) = Z.max (largest_temple_id rows) (Z.max (Temple.id r) 0).
Proof.
  induction rows as [|x rows IH]; cbn [app largest_temple_id fold_right].
  - lia.
  - fold (largest_temple_id (rows ++ [r])). fold (largest_temple_id rows). lia.
Qed.

Lemma largest_temple_id_nonneg rows : 0 <= largest_temple_id rows.
Proof.
  induction rows as [|x rows IH]; cbn [largest_temple_id fold_right]; [lia|].
  fold (largest_temple_id rows). lia.
Qed.

(** The loop inserts every row, numbered after the last rowid, when the
    rowids suffice. *)
Lemma insert_each_numbered rows : forall c,
  last_temple_id c + Z.of_nat (List.length rows) <= max_rowid ->
  snd (insert_each rows c) = true /\
  temples_table (temples (fst (insert_each rows c))) =
  (temples_table (temples c) ++ numbered (last_temple_id c + 1) rows)%list.
Proof.
  induction rows as [|r rows IH]; intros c H.
  - cbn [insert_each fst snd numbered]. rewrite app_nil_r. auto.
  - cbn [insert_each numbered]. unfold insertTemple_run.
    cbn [List.length] in H. rewrite Nat2Z.inj_succ in H.
    destruct (Z.ltb_spec max_rowid (last_temple_id c + 1)) as [F|_]; [lia|].
    set (c' := {| temples := _; temples_seq := _ |}).
    assert (L : last_temple_id c' = last_temple_id c + 1).
    { unfold last_temple_id at 1. subst c'. cbn [temples temples_table temples_seq].
      rewrite largest_temple_id_app. cbn [with_id Temple.id].
      pose proof (largest_temple_id_nonneg (temples_table (temples c))).
      unfold last_temple_id. lia. }
    destruct (IH c') as [S T]; [lia|]. split; [exact S|].
    rewrite T, L. subst c'. cbn [temples temples_table].
    rewrite <- app_assoc. reflexivity.
Qed.

Lemma insert_each_grows rows : forall c,
  temples_table (temples c) <> [] ->
  temples_table (temples (fst (insert_each rows c))) <> [].
Proof.
  induction rows as [|r rows IH]; intros c H; cbn [insert_each]; [exact H|].
  unfold insertTemple_run. destruct (max_rowid <? last_temple_id c + 1); [exact H|].
  apply IH. cbn [temples temples_table]. intros E. apply app_eq_nil in E.
  destruct E as [_ E]. discriminate.
Qed.

(** A loop that leaves the table empty has changed nothing. *)
Lemma insert_each_empty rows c :
  temples_table (temples (fst (insert_each rows c))) = [] ->
  fst (insert_each rows c) = c.
Proof.
  destruct rows as [|r rows]; cbn [insert_each]; [reflexivity|].
  unfold insertTemple_run. destruct (max_rowid <? last_temple_id c + 1); [reflexivity|].
  intros E. exfalso. revert E. apply insert_each_grows.
  cbn [temples temples_table]. intros E. apply app_eq_nil in E.
  destruct E as [_ E]. discriminate.
Qed.

(** X12. Start-up seeds once.  A catalog that has rows is left as it is; an
    empty one gets the five sample rows in their order, numbered after the
    last rowid of the table (from 1 in a new file) when the rowids suffice,
    and is not empty afterwards; and in every case a second start-up leaves
    the catalog as the first one left it. *)
Theorem seed_once c :
  (temples_table (temples c) <> [] -> seed c = (c, true)) /\
  (temples_table (temples c) = [] -> last_temple_id c + 5 <= max_rowid ->
   snd (seed c) = true /\
   temples_table (temples (fst (seed c))) = numbered (last_temple_id c + 1) sampleTemples) /\
  fst (seed (fst (seed c))) = fst (seed c).
Proof.
  assert (N : forall c, temples_table (temples c) <> [] -> seed c = (c, true)).
  { intros k H. unfold seed. destruct (temples_table (temples k)); [congruence|].
    reflexivity. }
  split; [exact (N c)|]. split.
  - intros E H. unfold seed. rewrite E. cbn [List.length Z.of_nat Z.eqb].
    destruct (insert_each_numbered sampleTemples c H) as [S T].
    rewrite T, E. split; [exact S | reflexivity].
  - destruct (temples_table (temples c)) as [|r rows] eqn:E.
    + assert (S : seed c = insert_each sampleTemples c)
        by (unfold seed; rewrite E; reflexivity).
      rewrite S. set (c1 := fst (insert_each sampleTemples c)).
      destruct (temples_table (temples c1)) as [|r rows] eqn:E1.
      * pose proof (insert_each_empty _ _ E1) as K. fold c1 in K.
        rewrite K at 1. rewrite S. fold c1. reflexivity.
      * rewrite N; [reflexivity|]. rewrite E1. discriminate.
    + rewrite (N c) by (rewrite E; discriminate). cbn [fst].
      rewrite (N c) by (rewrite E; discriminate). reflexivity.
Qed.

Lemma seed_once_witness :
  seed {| temples := seeded; temples_seq := 5 |} =
    ({| temples := seeded; temples_seq := 5 |}, true) /\
  (snd (seed new_file) = true /\ temples (fst (seed new_file)) = seeded).
Proof.
  destruct (seed_once {| temples := seeded; temples_seq := 5 |}) as (A & _ & _).
  destruct (seed_once new_file) as (_ & B & _).
  split.
  - apply A. discriminate.
  - destruct B as [S T]; [reflexivity | vm_compute; discriminate |].
    split; [exact S|].
    destruct (temples (fst (seed new_file))) as [table]. cbn [temples_table] in T.
    rewrite T. reflexivity.
Defined.

Local Close Scope Z_scope.

(** * The distance line of the detail panel *)

(** The distance of a row whose coordinates are the visitor's *)
Lemma row_at_the_position M req (r : Temple.row) :
  ES_conforming M -> cos_bounded M ->
  valid_coordinate (userLat req) (userLng req) = true ->
  Temple.lat r = Some (userLat req) -> Temple.lng r = Some (userLng req) ->
  distance_to M req {| row := r; distance := None |} = 0.
Proof.
  intros ES CB V Elat Elng. unfold distance_to. cbn [row].
  rewrite Elat, Elng. cbn [ToNumber].
  generalize dependent (userLng req). generalize dependent (userLat req).
  intros lat _ lng V _. unfold valid_coordinate in V.
  repeat (apply andb_true_iff in V; destruct V as [V ?]).
  pose proof (latitude_finite lat ltac:(assumption) ltac:(assumption)) as Flat.
  pose proof (longitude_finite lng ltac:(assumption) ltac:(assumption)) as Flng.
  unfold getDistance. cbv zeta.
  rewrite (F64.sub_diag lat 7 Flat), (F64.sub_diag lng 8 Flng).
  change (0 * Math_PI / 180 / 2) with 0. rewrite (sin_zero M ES).
  rewrite (cosine_term_zero M lat CB Flat).
  change (Math_sqrt 0) with 0. change (Math_sqrt (1 - 0)) with 1.
  rewrite (atan2_zero_pos M ES 1) by reflexivity. reflexivity.
Qed.

(** X13. A temple that stands exactly at the visitor's position and passes
    the filters is in the result of the search, and the detail panel shows
    "N/A" for its distance, not "0.0 km": the distance the server attaches
    is [0], which the panel takes for a missing one. *)
Theorem temple_at_the_position_shows_not_available M JSON_number req db r :
  ES_conforming M -> cos_bounded M ->
  JSON_number 0 = Some 0 ->
  reference_point_supplied req = true ->
  valid_coordinate (userLat req) (userLng req) = true ->
  js_le 0 (radiusKm req) = true ->
  In r (temples_table db) -> where_holds (statement req) r = true ->
  Temple.lat r = Some (userLat req) -> Temple.lng r = Some (userLng req) ->
  let t := {| row := r; distance := Some 0 |} in
  In t (body (fst (api_temples M req db))) /\
  distance_line_of (received_distance JSON_number t) = NotAvailable.
Proof.
  intros ES CB J R V Rad I W Elat Elng t. subst t. split.
  - apply (ranked_In M req db _ R).
    exists {| row := r; distance := None |}.
    rewrite (row_at_the_position M req r ES CB V Elat Elng). repeat split.
    + unfold selected, db_all. cbn [fst].
      apply in_map_iff. exists r. split; [reflexivity|].
      apply filter_In. split; assumption.
    + exact Rad.
  - unfold received_distance. cbn [distance]. rewrite J. reflexivity.
Qed.

Lemma temple_at_the_position_shows_not_available_witness :
  exists r,
    nth_error sampleTemples 0 = Some r /\
    In {| row := r; distance := Some 0 |}
       (body (fst (api_temples RefMath.lib at_dagadusheth seeded))) /\
    distance_line_of
      (received_distance JSON_finite {| row := r; distance := Some 0 |}) = NotAvailable.
Proof.
  eexists. split; [reflexivity|].
  apply (temple_at_the_position_shows_not_available RefMath.lib JSON_finite
           at_dagadusheth seeded).
  - exact RefMathFacts.conforming.
  - exact RefMathFacts.cos_is_bounded.
  - reflexivity.
  - reflexivity.
  - vm_compute. reflexivity.
  - vm_compute. reflexivity.
  - left. reflexivity.
  - vm_compute. reflexivity.
  - vm_compute. reflexivity.
  - vm_compute. reflexivity.
Defined.

(** * The rest on examples *)

Local Open Scope string_scope.

(** A second temple whose coordinates were never filled in *)
Definition unlocated_too : Temple.row :=
  {| Temple.id := 7;
     Temple.name := "Wayside shrine";
     Temple.type := "Other";
     Temple.address := None;
     Temple.city := Some "Pune";
     Temple.lat := None;
     Temple.lng := None;
     Temple.opening_hours := None;
     Temple.ritual_timings := None;
     Temple.festivals := None;
     Temple.accessibility := None;
     Temple.contact := None;
     Temple.description := None;
     Temple.image_url := None |}.

Definition with_two_unlocated : database :=
  {| temples_table := sampleTemples ++ [unlocated; unlocated_too] |}.

(** The two entries at distance [0] come in the order of their ids, 6 then
    7. *)
Lemma ranked_ties_in_catalog_order_witness :
  map row (filter (fun t => (distanceKm t =? 0)%float)
             (body (fst (api_temples RefMath.lib at_origin with_two_unlocated)))) =
    [unlocated; unlocated_too] /\
  StronglySorted Z.lt
    (map (fun t => Temple.id (row t))
       (filter (fun t => (distanceKm t =? 0)%float)
          (body (fst (api_temples RefMath.lib at_origin with_two_unlocated))))).
Proof.
  destruct (ranked_ties_in_catalog_order RefMath.lib at_origin with_two_unlocated 0%float)
    as [E S].
  - repeat constructor; vm_compute; reflexivity.
  - reflexivity.
  - split; [|exact S]. cbv zeta in E. rewrite E. vm_compute. reflexivity.
Defined.

Lemma radius_nesting_witness :
  body (fst (api_temples RefMath.lib (with_radius near_pune (Some "2")) seeded)) =
  filter (fun t => js_le (distanceKm t) (radiusKm (with_radius near_pune (Some "2"))))
    (body (fst (api_temples RefMath.lib (with_radius near_pune None) seeded))).
Proof.
  apply (radius_nesting RefMath.lib near_pune seeded (Some "2") None).
  - reflexivity.
  - vm_compute. reflexivity.
Defined.


Lemma join_split_round_trip_witness :
  split_comma (Array_join_comma ["Hindu"; "Jain"]) = ["Hindu"; "Jain"] /\
  Array_join_comma (split_comma "Hindu,,Sikh") = "Hindu,,Sikh".
Proof.
  split.
  - apply (proj1 join_split_round_trip); [discriminate | reflexivity].
  - apply (proj2 join_split_round_trip).
Defined.

Lemma NoDup_Hindu_Jain_Sikh : NoDup ["Hindu"; "Jain"; "Sikh"].
Proof.
  repeat constructor; cbn [In]; intuition discriminate.
Defined.

Lemma toggleType_flips_witness :
  In "Buddhist" (toggleType "Buddhist" ["Hindu"; "Jain"; "Sikh"]) /\
  (In "Jain" (toggleType "Buddhist" ["Hindu"; "Jain"; "Sikh"]) <->
   In "Jain" ["Hindu"; "Jain"; "Sikh"]) /\
  NoDup (toggleType "Buddhist" ["Hindu"; "Jain"; "Sikh"]).
Proof.
  destruct (toggleType_flips "Buddhist" ["Hindu"; "Jain"; "Sikh"]) as (A & B & C).
  split; [|split].
  - apply A. cbn [In]. intuition discriminate.
  - apply B. discriminate.
  - apply C. exact NoDup_Hindu_Jain_Sikh.
Defined.

Lemma toggleType_twice_witness :
  toggleType "Jain" (toggleType "Jain" ["Hindu"; "Jain"; "Sikh"]) = ["Hindu"; "Sikh"; "Jain"] /\
  Permutation (toggleType "Jain" (toggleType "Jain" ["Hindu"; "Jain"; "Sikh"]))
    ["Hindu"; "Jain"; "Sikh"].
Proof.
  destruct (toggleType_twice "Jain" ["Hindu"; "Jain"; "Sikh"] NoDup_Hindu_Jain_Sikh)
    as [_ B].
  apply B. right. left. reflexivity.
Defined.

Local Close Scope string_scope.
